(** * The CSV parser of the stock dashboard ([parseCsv] of src/App.js)

    A shallow embedding of [parseCsv] and of the JavaScript built-ins it
    calls, and the properties of the parser stated in the specification.

    Strings are sequences of code units.  The embedding covers the code
    units below 256 (the Latin-1 range), on which [trim], [toLowerCase],
    [split] and the regular expressions of the source are modelled exactly.
    Numbers are IEEE 754 binary64 values ([spec_float] of the standard
    library), so that [parseFloat] rounds as the language prescribes. *)

From stdpp Require Import gmap strings list fin_maps.
From Stdlib Require Import Ascii ZArith Floats.SpecFloat DecimalString.

Open Scope string_scope.
Open Scope list_scope.

(** ** Strings *)

Definition js (s : string) : list ascii := String.list_ascii_of_string s.
Coercion js : string >-> list.
Arguments js : simpl never.

Abbreviation jstring := (list ascii).

Module JS.

(** The characters the parser tests for. *)
Definition LF : ascii := ascii_of_N 10.
Definition comma : ascii := ascii_of_N 44.
Definition dquote : ascii := ascii_of_N 34.
Definition space : ascii := ascii_of_N 32.
Definition underscore : ascii := ascii_of_N 95.

(** [WhiteSpace] and [LineTerminator] of ECMAScript below code unit 256:
    TAB, LF, VT, FF, CR, SP and NBSP. *)
Definition isWhiteSpace (c : ascii) : bool :=
  let n := N_of_ascii c in
  ((9 <=? n) && (n <=? 13) || (n =? 32) || (n =? 160))%N.

Fixpoint trimStart (s : jstring) : jstring :=
  match s with
  | [] => []
  | c :: s' => if isWhiteSpace c then trimStart s' else s
  end.

Definition trimEnd (s : jstring) : jstring := rev (trimStart (rev s)).

(** [String.prototype.trim] *)
Definition trim (s : jstring) : jstring := trimEnd (trimStart s).

(** [String.prototype.split] with a separator of one code unit.  The result
    is never empty: splitting the empty string gives one empty string. *)
Fixpoint split (sep : ascii) (s : jstring) : list jstring :=
  match s with
  | [] => [[]]
  | c :: s' =>
      if Ascii.eqb c sep then [] :: split sep s'
      else match split sep s' with
           | [] => [[c]]
           | t :: ts => (c :: t) :: ts
           end
  end.

(** [String.prototype.toLowerCase]: the letters A-Z, and the capital letters
    of Latin-1 (U+00C0 to U+00DE, the multiplication sign excepted). *)
Definition toLowerChar (c : ascii) : ascii :=
  let n := N_of_ascii c in
  if ((65 <=? n) && (n <=? 90) || (192 <=? n) && (n <=? 222) && negb (n =? 215))%N
  then ascii_of_N (n + 32) else c.

Definition toLowerCase (s : jstring) : jstring := map toLowerChar s.

Fixpoint startsWith (s p : jstring) : bool :=
  match p, s with
  | [], _ => true
  | _ :: _, [] => false
  | a :: p', c :: s' => Ascii.eqb a c && startsWith s' p'
  end.

(** [String.prototype.includes] *)
Fixpoint includes (s p : jstring) : bool :=
  startsWith s p ||
  match s with
  | [] => false
  | _ :: s' => includes s' p
  end.

(** [s.replace(/^"|"$/g, '')].  The global scan visits the code units from
    left to right; the first alternative matches a double quote at index 0,
    the second a double quote at the last index. *)
Fixpoint replaceEdgeQuotesFrom (atStart : bool) (s : jstring) : jstring :=
  match s with
  | [] => []
  | c :: s' =>
      if Ascii.eqb c dquote && (atStart || match s' with [] => true | _ => false end)
      then replaceEdgeQuotesFrom false s'
      else c :: replaceEdgeQuotesFrom false s'
  end.

Definition replaceEdgeQuotes (s : jstring) : jstring := replaceEdgeQuotesFrom true s.

(** [s.replace(/ /g, '_')] *)
Definition replaceSpaces (s : jstring) : jstring :=
  map (fun c => if Ascii.eqb c space then underscore else c) s.

(** [s.replace(/,/g, '')] *)
Definition removeCommas (s : jstring) : jstring :=
  List.filter (fun c => negb (Ascii.eqb c comma)) s.

(** *** Numbers *)

Abbreviation number := spec_float.

Definition prec : Z := 53.
Definition emax : Z := 1024.

Definition NaN : number := S754_nan.
Definition zero : number := S754_zero false.

(** The Number value of the decimal [m * 10^e], rounded to nearest, ties to
    even. *)
Definition ofDecimal (neg : bool) (m : N) (e : Z) : number :=
  match m with
  | N0 => S754_zero neg
  | Npos p =>
      if (0 <=? e)%Z
      then binary_normalize prec emax
             (if neg then Z.neg p * 10 ^ e else Z.pos p * 10 ^ e)%Z 0 neg
      else SFdiv prec emax (S754_finite neg p 0)
             (S754_finite false (Z.to_pos (10 ^ (- e))) 0)
  end.

Definition isDigit (c : ascii) : bool :=
  let n := N_of_ascii c in ((48 <=? n) && (n <=? 57))%N.

Definition digitValue (c : ascii) : N := (N_of_ascii c - 48)%N.

(** The longest run of decimal digits at the front of [s], and what follows. *)
Fixpoint spanDigits (s : jstring) : jstring * jstring :=
  match s with
  | [] => ([], [])
  | c :: s' =>
      if isDigit c then let '(ds, r) := spanDigits s' in (c :: ds, r)
      else ([], s)
  end.

Definition digitsValue (ds : jstring) : N :=
  fold_left (fun acc c => (10 * acc + digitValue c)%N) ds 0%N.

(** An optional sign: whether it is a minus, and what follows. *)
Definition takeSign (s : jstring) : bool * jstring :=
  match s with
  | c :: s' =>
      if Ascii.eqb c "-"%char then (true, s')
      else if Ascii.eqb c "+"%char then (false, s')
      else (false, s)
  | [] => (false, s)
  end.

(** [ExponentPart] when one is present at the front of [s], zero otherwise. *)
Definition exponentPart (s : jstring) : Z :=
  match s with
  | c :: s' =>
      if Ascii.eqb c "e"%char || Ascii.eqb c "E"%char then
        let '(neg, s'') := takeSign s' in
        let '(ds, _) := spanDigits s'' in
        match ds with
        | [] => 0%Z
        | _ => if neg then (- Z.of_N (digitsValue ds))%Z else Z.of_N (digitsValue ds)
        end
      else 0%Z
  | [] => 0%Z
  end.

(** [parseFloat]: leading white space is skipped, the longest prefix that is
    a [StrDecimalLiteral] is converted, and [NaN] is returned when no prefix
    is one. *)
Definition parseFloat (s : jstring) : number :=
  let '(neg, s1) := takeSign (trimStart s) in
  if startsWith s1 "Infinity" then S754_infinity neg
  else
    let '(ip, s2) := spanDigits s1 in
    let '(fp, s3) :=
      match s2 with
      | c :: s2' => if Ascii.eqb c "."%char then spanDigits s2' else ([], s2)
      | [] => ([], s2)
      end in
    match ip ++ fp with
    | [] => NaN
    | ds => ofDecimal neg (digitsValue ds) (exponentPart s3 - Z.of_nat (length fp))
    end.

(** [x || 0] for a number [x]: [NaN] and both zeros are falsy. *)
Definition orZero (x : number) : number :=
  match x with
  | S754_nan | S754_zero _ => zero
  | _ => x
  end.

End JS.

Import JS.

(** ** Effects: exceptions and the console *)

(** Reading a property of [undefined] throws a [TypeError]; nothing else in
    [parseCsv] can throw. *)
Inductive exn := TypeError.

(** What [parseCsv] writes to the console.  Row numbers are [i + 1]. *)
Inductive event :=
| WarnNoHeader
| LogHeaders (headers : list jstring)
| WarnMissingSymbol (rowNumber : nat) (line : jstring)
| WarnColumnCount (rowNumber nHeaders nValues : nat) (line : jstring)
| LogDataSize (size : nat)
| WarnNoData.

Abbreviation console := (list event).

Inductive outcome (A : Type) :=
| Returned (a : A)
| Thrown (e : exn).
Arguments Returned {A} a.
Arguments Thrown {A} e.

(** A computation reads and extends the console and returns or throws. *)
Definition M (A : Type) : Type := console -> console * outcome A.

Definition ret {A} (a : A) : M A := fun c => (c, Returned a).

Definition bind {A B} (m : M A) (k : A -> M B) : M B :=
  fun c =>
    match m c with
    | (c', Returned a) => k a c'
    | (c', Thrown e) => (c', Thrown e)
    end.

Definition throw {A} (e : exn) : M A := fun c => (c, Thrown e).

(** [console.log] and [console.warn] *)
Definition emit (e : event) : M unit := fun c => (c ++ [e], Returned tt).

Notation "x <- m ;; k" := (bind m (fun x => k))
  (at level 100, m at next level, right associativity).
Notation "m ;;; k" := (bind m (fun _ => k))
  (at level 100, right associativity).

(** [xs[i]] is [undefined] out of range; [defined] is a property read or a
    method call on the result. *)
Definition defined {A} (o : option A) : M A :=
  match o with
  | Some a => ret a
  | None => throw TypeError
  end.

(** *** Loops *)

Inductive step (St : Type) :=
| Continue (s : St)
| Break (s : St).
Arguments Continue {St} s.
Arguments Break {St} s.

(** [n] iterations of [body] from index [i], unless it breaks. *)
Fixpoint iterate {St} (n i : nat) (body : nat -> St -> M (step St)) (s : St) : M St :=
  match n with
  | O => ret s
  | S n' =>
      r <- body i s ;;
      match r with
      | Continue s' => iterate n' (S i) body s'
      | Break s' => ret s'
      end
  end.

(** [for (let i = start; i < stop; i++) body], for a bound [stop] that the
    body leaves unchanged. *)
Definition forLoop {St} (start stop : nat) (body : nat -> St -> M (step St)) (s : St) : M St :=
  iterate (stop - start) start body s.

(** ** Records *)

Inductive value :=
| VString (s : jstring)
| VNumber (x : number).

(** A row object: its own properties.  Its prototype is [Object.prototype]. *)
Abbreviation record := (gmap jstring value).

(** [row[k] = v].  The key [__proto__] is the accessor inherited from
    [Object.prototype]; its setter ignores a value that is neither an object
    nor [null], so no own property is created. *)
Definition setProperty (k : jstring) (v : value) (row : record) : record :=
  if bool_decide (k = js "__proto__") then row else <[k := v]> row.

(** [row.Symbol && row.Symbol.length > 0].  [Object.prototype] has no
    property [Symbol], so the read sees own properties only.  The empty
    string is falsy; a number has no [length], and [undefined > 0] is
    false. *)
Definition hasSymbol (row : record) : bool :=
  match row !! js "Symbol" with
  | Some (VString s) => bool_decide (s <> []) && bool_decide (0 < length s)
  | Some (VNumber _) => false
  | None => false
  end.

(** ** parseCsv *)

(** The callback of [map] at line 79. *)
Definition normalizeHeader (header : jstring) : jstring :=
  let header := replaceEdgeQuotes (trim header) in
  replaceSpaces header.

(** The header loop, lines 73 to 88; its state is [headers] and
    [headerStartIndex]. *)
Definition headerStep (lines : list jstring) (i : nat)
    (st : option (list jstring) * Z) : M (step (option (list jstring) * Z)) :=
  l <- defined (lines !! i) ;;
  let line := trim l in
  if bool_decide (0 < length line) then
    let parts := List.filter (fun part => bool_decide (0 < length (trim part)))
                   (split comma line) in
    if bool_decide (0 < length parts) then
      p0 <- defined (parts !! 0) ;;
      if includes (toLowerCase p0) "symbol" then
        ret (Break (Some (map normalizeHeader (split comma line)), Z.of_nat i))
      else ret (Continue st)
    else ret (Continue st)
  else ret (Continue st).

(** The scanner, lines 105 to 116; its state is [values], [currentValue] and
    [inQuotes]. *)
Definition scanStep (line : jstring) (j : nat)
    (st : list jstring * jstring * bool) : M (step (list jstring * jstring * bool)) :=
  let '(values, currentValue, inQuotes) := st in
  match line !! j with
  | Some char =>
      if Ascii.eqb char dquote then ret (Continue (values, currentValue, negb inQuotes))
      else if Ascii.eqb char comma && negb inQuotes then
        ret (Continue (values ++ [trim currentValue], [], inQuotes))
      else ret (Continue (values, currentValue ++ [char], inQuotes))
  | None => ret (Continue (values, currentValue ++ js "undefined", inQuotes))
  end.

Definition isPriceOrVolume (h : jstring) : bool :=
  bool_decide (h = js "Current_price") || bool_decide (h = js "Price_change")
  || bool_decide (h = js "Liquidity") || bool_decide (h = js "Volume").

(** [parseFloat(value)]: the argument is converted to a string first, which
    gives a number back with the sign of a zero lost. *)
Definition parseFloatOf (v : value) : number :=
  match v with
  | VString s => parseFloat s
  | VNumber (S754_zero _) => zero
  | VNumber x => x
  end.

(** Lines 123 to 135: the value stored under header [h] for the text [v]. *)
Definition coerce (h : jstring) (v : jstring) : value :=
  let s := replaceEdgeQuotes v in
  let value :=
    if isPriceOrVolume h then VNumber (orZero (parseFloat (removeCommas s)))
    else VString s in
  if bool_decide (h = js "Percent_change") then VNumber (orZero (parseFloatOf value))
  else value.

(** The loop over the columns, lines 122 to 138.  [headers[j]] out of range
    is [undefined], which equals no header name and is the key
    ["undefined"]. *)
Definition columnStep (headers values : list jstring) (j : nat)
    (row : record) : M (step record) :=
  v <- defined (values !! j) ;;
  let h := default (js "undefined") (headers !! j) in
  ret (Continue (setProperty h (coerce h v) row)).

(** The loop over the data rows, lines 97 to 149; its state is [data]. *)
Definition rowStep (lines headers : list jstring) (i : nat)
    (data : list record) : M (step (list record)) :=
  l <- defined (lines !! i) ;;
  let line := trim l in
  if bool_decide (0 < length line) then
    scanned <- forLoop 0 (length line) (scanStep line) ([], [], false) ;;
    let '(values, currentValue, _) := scanned in
    let values := values ++ [trim currentValue] in
    if bool_decide (length values = length headers) then
      row <- forLoop 0 (length headers) (columnStep headers values) ∅ ;;
      if hasSymbol row then ret (Continue (data ++ [row]))
      else emit (WarnMissingSymbol (i + 1) line) ;;; ret (Continue data)
    else
      emit (WarnColumnCount (i + 1) (length headers) (length values) line) ;;;
      ret (Continue data)
  else ret (Continue data).

Definition parseCsv (csvText : jstring) : M (list record) :=
  let lines := split LF csvText in
  found <- forLoop 0 (length lines) (headerStep lines) (None, (-1)%Z) ;;
  let '(headers, headerStartIndex) := found in
  match headers with
  | None => emit WarnNoHeader ;;; ret []
  | Some headers =>
      emit (LogHeaders headers) ;;;
      data <- forLoop (Z.to_nat (headerStartIndex + 1)) (length lines)
                (rowStep lines headers) [] ;;
      emit (LogDataSize (length data)) ;;;
      (if bool_decide (length data = 0) then emit WarnNoData else ret tt) ;;;
      ret data
  end.

(** ** The parser as a function on lists

    What the loops of [parseCsv] compute, without indices, console or
    exceptions.  [parseCsv_returns] below relates the two. *)

(** The test of lines 75 to 78 on [lines[i]]. *)
Definition isHeaderLine (l : jstring) : bool :=
  let line := trim l in
  bool_decide (0 < length line) &&
  match List.filter (fun part => bool_decide (0 < length (trim part)))
          (split comma line) with
  | p0 :: _ => includes (toLowerCase p0) "symbol"
  | [] => false
  end.

(** [headers], when [l] is the header line. *)
Definition headerRow (l : jstring) : list jstring :=
  map normalizeHeader (split comma (trim l)).

Fixpoint headerIndexFrom (i : nat) (lines : list jstring) : option nat :=
  match lines with
  | [] => None
  | l :: lines' => if isHeaderLine l then Some i else headerIndexFrom (S i) lines'
  end.

(** [headerStartIndex], when a header line is found. *)
Definition headerIndex (lines : list jstring) : option nat := headerIndexFrom 0 lines.

(** One step of the scanner on the code unit [char]. *)
Definition scanChar (st : list jstring * jstring * bool) (char : ascii)
    : list jstring * jstring * bool :=
  let '(values, currentValue, inQuotes) := st in
  if Ascii.eqb char dquote then (values, currentValue, negb inQuotes)
  else if Ascii.eqb char comma && negb inQuotes then (values ++ [trim currentValue], [], inQuotes)
  else (values, currentValue ++ [char], inQuotes).

(** [values] after line 117, for a trimmed line. *)
Definition tokenize (line : jstring) : list jstring :=
  let '(values, currentValue, _) := fold_left scanChar line ([], [], false) in
  values ++ [trim currentValue].

(** [row] after the loop over the columns. *)
Definition buildRow (headers values : list jstring) : record :=
  fold_left (fun row hv => setProperty hv.1 (coerce hv.1 hv.2) row) (zip headers values) ∅.

(** The record that line [l] adds to [data], if it adds one. *)
Definition rowOf (headers : list jstring) (l : jstring) : option record :=
  let line := trim l in
  if bool_decide (0 < length line) then
    let values := tokenize line in
    if bool_decide (length values = length headers) then
      let row := buildRow headers values in
      if hasSymbol row then Some row else None
    else None
  else None.

Definition parse (csvText : jstring) : list record :=
  let lines := split LF csvText in
  match headerIndex lines with
  | None => []
  | Some i =>
      match lines !! i with
      | Some l => omap (rowOf (headerRow l)) (drop (S i) lines)
      | None => []
      end
  end.

(** What one data line appends to [data]. *)
Definition pushRow (headers : list jstring) (data : list record) (l : jstring) : list record :=
  match rowOf headers l with
  | Some row => data ++ [row]
  | None => data
  end.

(** ** The words of the specification *)

(** The header line of a text, when it has one, and the lines after it. *)
Definition headerLine (csvText : jstring) : option jstring :=
  match headerIndex (split LF csvText) with
  | Some i => split LF csvText !! i
  | None => None
  end.

Definition dataLines (csvText : jstring) : list jstring :=
  match headerIndex (split LF csvText) with
  | Some i => drop (S i) (split LF csvText)
  | None => []
  end.

(** Stripping one leading and one trailing double quote, if present. *)
Definition stripLeadingQuote (s : jstring) : jstring :=
  match s with
  | c :: s' => if Ascii.eqb c dquote then s' else s
  | [] => []
  end.

Definition stripTrailingQuote (s : jstring) : jstring :=
  match last s with
  | Some c => if Ascii.eqb c dquote then take (length s - 1) s else s
  | None => s
  end.

(** Step 3 of the algorithm, on one comma-separated token. *)
Definition normalizeToken (token : jstring) : jstring :=
  map (fun c => if Ascii.eqb c space then underscore else c)
    (stripTrailingQuote (stripLeadingQuote (trim token))).

(** A letter, or the capital of a small letter. *)
Definition capital (l : ascii) : ascii := ascii_of_N (N_of_ascii l - 32).

Definition sameLetter (c l : ascii) : Prop := c = l \/ c = capital l.

(** [token] contains [word] (small letters) whatever the case. *)
Definition containsIgnoringCase (token word : jstring) : Prop :=
  exists pre mid post, token = pre ++ mid ++ post /\ Forall2 sameLetter mid word.

(** [token] is the first comma-separated token of [line] that is not blank. *)
Definition firstNonEmptyToken (line token : jstring) : Prop :=
  exists blanks rest,
    split comma line = blanks ++ token :: rest /\
    Forall (fun t => trim t = []) blanks /\ trim token <> [].

(** Step 2 of the algorithm: the test that makes a line the header line. *)
Definition HeaderLine (l : jstring) : Prop :=
  trim l <> [] /\
  exists token, firstNonEmptyToken (trim l) token /\ containsIgnoringCase token "symbol".

(** The text of the column named [h] in a row: no header is deduplicated,
    so the last column of that name is the one that counts. *)
Definition columnText (h : jstring) (headers values : list jstring) : option jstring :=
  last (omap (fun hv : jstring * jstring =>
                if bool_decide (hv.1 = h) then Some hv.2 else None)
          (zip headers values)).

(** A data line that is kept: not blank, as many fields as the header row,
    and a Symbol that is not empty. *)
Definition Qualifies (headers : list jstring) (l : jstring) : Prop :=
  trim l <> [] /\
  length (tokenize (trim l)) = length headers /\
  exists s, columnText "Symbol" headers (tokenize (trim l)) = Some s /\ s <> [].

#[global] Instance Qualifies_dec headers l : Decision (Qualifies headers l).
Proof.
  unfold Qualifies. apply and_dec; [apply _|]. apply and_dec; [apply _|].
  destruct (columnText "Symbol" headers (tokenize (trim l))) as [s|].
  - destruct (decide (s <> [])) as [Hs|Hs].
    + left. exists s. split; [reflexivity | exact Hs].
    + right. intros (s' & Heq & Hs'). injection Heq as <-. exact (Hs Hs').
  - right. intros (s' & Heq & _). discriminate Heq.
Defined.

(** The same test, computed. *)
Definition qualifies (headers : list jstring) (l : jstring) : bool :=
  bool_decide (trim l <> []) &&
  bool_decide (length (tokenize (trim l)) = length headers) &&
  match columnText "Symbol" headers (tokenize (trim l)) with
  | Some s => bool_decide (s <> [])
  | None => false
  end.

(** The record of a data line. *)
Definition recordOf (headers : list jstring) (l : jstring) : record :=
  buildRow headers (tokenize (trim l)).

(** [hl] is line [i] of the text and the first line that passes the test of
    step 2. *)
Definition DetectedHeader (csvText : jstring) (i : nat) (hl : jstring) : Prop :=
  split LF csvText !! i = Some hl /\
  HeaderLine hl /\
  forall j l, j < i -> split LF csvText !! j = Some l -> ~ HeaderLine l.

(** The scanner state holds no double quote. *)
Definition quoteFree (st : list jstring * jstring * bool) : Prop :=
  Forall (fun v => dquote ∉ v) st.1.1 /\ dquote ∉ st.1.2.

(** A text from its lines. *)
Definition unlines (ls : list jstring) : jstring :=
  match ls with
  | [] => []
  | l :: ls' => l ++ concat (map (fun l' => LF :: l') ls')
  end.

(** A field in double quotes. *)
Definition quoted (s : jstring) : jstring := dquote :: s ++ [dquote].

(** *** The texts of the examples *)

Definition quotedCommaLine : jstring :=
  quoted "AAA" ++ js "," ++ quoted "Foo, Inc." ++ js ",100".

Definition quotedCommaText : jstring :=
  unlines [js "Symbol,Name,Price"; quotedCommaLine].

Definition mixedRowsText : jstring :=
  unlines [js "Symbol,Name,Price"; js "AAA,Foo,100"; js ",Foo,100"; js "BBB,Bar";
           js ""; js "CCC,Baz,7"].

Definition duplicateNameText : jstring :=
  unlines [js "Symbol,Name,Name"; js "AAA,x,y"].

Definition thousandsLine : jstring :=
  js "AAA," ++ quoted "1,234.56" ++ js "," ++ quoted "1,234.56".

Definition thousandsText : jstring :=
  unlines [js "Symbol,Volume,Percent_change"; thousandsLine].

(** The number 1234.56, and the number 1. *)
Definition n1234_56 : number := S754_finite false 5429652300748554 (-42).
Definition n1 : number := S754_finite false 4503599627370496 (-52).

(** ** The caller of the parser: fetchStockData and the screens of App *)

Definition CR : ascii := ascii_of_N 13.

(** What [await fetch(...)] and [await response.text()] give: a rejection
    with the message of its error, or a response with its [ok] flag, its
    status and its text. *)
Inductive fetchOutcome :=
| Rejected (message : jstring)
| Responded (ok : bool) (status : nat) (text : jstring).

(** What the engine supplies: [Array.prototype.sort] with the comparator of
    line 50, of which only the result as a list is kept, and the message of
    a [TypeError]. *)
Record engine := {
  sortByLiquidity : list record -> list record;
  typeErrorMessage : jstring
}.

(** The state of the component: [stocks], [loading] and [error]. *)
Record appState := {
  stocks : list record;
  loading : bool;
  error : option jstring
}.

(** Line 5 to 7: the state before the effect runs. *)
Definition initialState : appState :=
  {| stocks := []; loading := true; error := None |}.

(** The message of the error thrown at line 27. *)
Definition httpErrorMessage (status : nat) (errorText : jstring) : jstring :=
  js "HTTP error! Status: "
  ++ js (NilEmpty.string_of_uint (Nat.to_uint status))
  ++ js ". This might be due to a temporary service issue or an incorrect URL/publishing setting. Response: "
  ++ take 200 errorText ++ js "...".

Definition htmlMessage : jstring :=
  "Received HTML content instead of CSV data. Please ensure your Google Sheet is published as CSV.".

Definition emptyMessage : jstring :=
  "Received empty CSV data. Please verify your Google Sheet has content and is published correctly.".

Definition noDataMessage : jstring :=
  "No valid stock data found after parsing the CSV. Check headers (especially 'Symbol') and data rows in your Google Sheet.".

(** The [try] block, lines 15 to 51: the message of the error it throws, or
    the array it passes to [setStocks].  The console holds what [parseCsv]
    writes; the [console.log] calls of the block itself are left out. *)
Definition tryFetch (e : engine) (r : fetchOutcome) (c : console)
    : console * (jstring + list record) :=
  match r with
  | Rejected message => (c, inl message)
  | Responded ok status csvText =>
      if negb ok then (c, inl (httpErrorMessage status csvText))
      else if includes csvText "<html" || includes csvText "<!DOCTYPE" then
        (c, inl htmlMessage)
      else if bool_decide (length (trim csvText) = 0) then (c, inl emptyMessage)
      else
        match parseCsv csvText c with
        | (c', Thrown TypeError) => (c', inl (typeErrorMessage e))
        | (c', Returned parsedData) =>
            if bool_decide (length parsedData = 0) then (c', inl noDataMessage)
            else (c', inr (sortByLiquidity e parsedData))
        end
  end.

(** [fetchStockData], lines 14 to 59, as a step of the state: [setStocks]
    on success, [setError] in the [catch], [setLoading(false)] in the
    [finally]. *)
Definition fetchStockData (e : engine) (r : fetchOutcome) (st : appState) (c : console)
    : console * appState :=
  let '(c', result) := tryFetch e r c in
  (c',
   match result with
   | inr sortedStocks =>
       {| stocks := sortedStocks; loading := false; error := error st |}
   | inl message =>
       {| stocks := stocks st; loading := false;
          error := Some (js "Failed to load stock data: " ++ message) |}
   end).

(** The screens that [App] returns, lines 158 to 300. *)
Inductive screen :=
| LoadingScreen
| ErrorScreen (error : jstring)
| NoStockDataScreen
| Dashboard (stocks : list record).

(** [if (error)]: [null] and the empty string are falsy. *)
Definition render (st : appState) : screen :=
  if loading st then LoadingScreen
  else
    match error st with
    | Some (ch :: message) => ErrorScreen (ch :: message)
    | _ =>
        if bool_decide (length (stocks st) = 0) then NoStockDataScreen
        else Dashboard (stocks st)
    end.

(** [x || fallback] for the value [x] of a property that may be missing. *)
Definition orElse (x : option value) (fallback : value) : value :=
  match x with
  | Some (VString (ch :: s)) => VString (ch :: s)
  | Some (VNumber (S754_finite sg m ex)) => VNumber (S754_finite sg m ex)
  | Some (VNumber (S754_infinity sg)) => VNumber (S754_infinity sg)
  | _ => fallback
  end.

(** Line 241, with [random] for the identifier built from [Math.random()],
    and line 252. *)
Definition uniqueKey (random : jstring) (stock : record) : value :=
  orElse (stock !! js "Symbol") (VString (js "stock-" ++ random)).

Definition cardTitle (stock : record) : value :=
  orElse (stock !! js "Symbol") (VString "N/A").

(** A row written with every field in double quotes. *)
Definition quotedRow (fields : list jstring) : jstring :=
  match fields with
  | [] => []
  | f :: fs => quoted f ++ concat (map (fun g => comma :: quoted g) fs)
  end.

(** The header names whose values are numbers. *)
Definition isNumericHeader (h : jstring) : bool :=
  isPriceOrVolume h || bool_decide (h = js "Percent_change").

(** A number as it is written: an optional sign, digits, and a fraction
    when [dotted]. *)
Definition numeral (sgn ip : jstring) (dotted : bool) (fp : jstring) : jstring :=
  sgn ++ ip ++ (if dotted then "."%char :: fp else []).

(** Where [parseFloat] stops: [stop] is the end of the text, or begins with
    a character that continues neither the digits, nor the fraction when
    there is none yet, nor an exponent. *)
Definition stopsNumber (dotted : bool) (stop : jstring) : Prop :=
  match stop with
  | [] => True
  | ch :: _ =>
      isDigit ch = false /\ ch <> "e"%char /\ ch <> "E"%char /\
      (dotted = false -> ch <> "."%char)
  end.


(** *** The sort of line 50 *)

(** [stock.Liquidity || 0], line 50, where it is a number: for a Liquidity
    that is a number or the empty string, or that is missing.  A string that
    is not empty stays a string, which the subtraction would convert to a
    number; that conversion is not modelled. *)
Definition liquidityOrZero (stock : record) : option number :=
  match stock !! js "Liquidity" with
  | None => Some zero
  | Some (VNumber x) => Some (orZero x)
  | Some (VString []) => Some zero
  | Some (VString (_ :: _)) => None
  end.

(** The comparator of line 50,
    [(a, b) => (b.Liquidity || 0) - (a.Liquidity || 0)]. *)
Definition liquidityComparator (a b : record) : option number :=
  match liquidityOrZero b, liquidityOrZero a with
  | Some y, Some x => Some (SFsub prec emax y x)
  | _, _ => None
  end.

(** The sign of a number: [Lt] below zero, [Eq] for a zero of either sign,
    [Gt] above zero, and none for NaN. *)
Definition signOf (v : number) : option comparison :=
  match v with
  | S754_zero _ => Some Eq
  | S754_finite sg _ _ | S754_infinity sg => Some (if sg then Lt else Gt)
  | S754_nan => None
  end.

(** How [Array.prototype.sort] reads the comparator, in the words of
    ECMAScript: [Some Lt] is [a <CF b], [Some Eq] is [a =CF b], [Some Gt] is
    [a >CF b]; there is no answer when the comparator gives NaN. *)
Definition compareCF (a b : record) : option comparison :=
  match liquidityComparator a b with
  | Some v => signOf v
  | None => None
  end.

(** The comparator is a consistent comparator for the stocks of [l], as
    ECMAScript defines it: it gives a number that is not NaN, [=CF] is
    reflexive, symmetric and transitive, [<CF] and [>CF] are transitive. *)
Record ConsistentComparator (l : list record) : Prop := {
  CF_number a b : a ∈ l -> b ∈ l -> is_Some (compareCF a b);
  CF_refl a : a ∈ l -> compareCF a a = Some Eq;
  CF_sym a b : a ∈ l -> b ∈ l -> compareCF a b = Some Eq -> compareCF b a = Some Eq;
  CF_eq_trans a b c : a ∈ l -> b ∈ l -> c ∈ l ->
    compareCF a b = Some Eq -> compareCF b c = Some Eq -> compareCF a c = Some Eq;
  CF_lt_trans a b c : a ∈ l -> b ∈ l -> c ∈ l ->
    compareCF a b = Some Lt -> compareCF b c = Some Lt -> compareCF a c = Some Lt;
  CF_gt_trans a b c : a ∈ l -> b ∈ l -> c ∈ l ->
    compareCF a b = Some Gt -> compareCF b c = Some Gt -> compareCF a c = Some Gt
}.

(** The sort order: for [j < k] the comparator, called on [l[j]] and
    [l[k]], gives nothing above zero. *)
Definition SortedByLiquidity (l : list record) : Prop :=
  forall j k a b, j < k -> l !! j = Some a -> l !! k = Some b ->
    compareCF a b <> Some Gt.

(** The sort is stable: the stocks that compare equal to a stock of the
    array come in the order they had. *)
Definition KeepsTies (old new : list record) : Prop :=
  forall x, x ∈ old ->
    filter (fun r => compareCF x r = Some Eq) new
    = filter (fun r => compareCF x r = Some Eq) old.

(** What ECMAScript asks of [Array.prototype.sort] when the comparator is
    consistent for the elements of the array; otherwise the order is left to
    the engine. *)
Definition SortContract (e : engine) : Prop :=
  forall l, ConsistentComparator l ->
    SortedByLiquidity (sortByLiquidity e l) /\ KeepsTies l (sortByLiquidity e l).

(** The exponent of a finite number is at least [emin], as for every
    binary64 value. *)
Definition wellFormed (x : number) : Prop :=
  match x with
  | S754_finite _ _ e => (emin prec emax <= e)%Z
  | _ => True
  end.

(** Neither NaN nor an infinity. *)
Definition isFinite (x : number) : Prop :=
  match x with
  | S754_finite _ _ _ | S754_zero _ => True
  | _ => False
  end.

(** The value of a finite number, in units of [2 ^ emin]. *)
Definition scaled (x : number) : Z :=
  match x with
  | S754_finite s m e => cond_Zopp s (Z.pos m * 2 ^ (e - emin prec emax))
  | _ => 0
  end.

(** The value of [stock.Liquidity || 0], where it is a finite number. *)
Definition liquidityKey (stock : record) : Z :=
  match liquidityOrZero stock with
  | Some x => scaled x
  | None => 0
  end.

(** The values of [stock.Liquidity || 0] never go up along the array. *)
Definition DescendingLiquidity (l : list record) : Prop :=
  forall j k a b, j < k -> l !! j = Some a -> l !! k = Some b ->
    exists x y,
      liquidityOrZero a = Some x /\ liquidityOrZero b = Some y /\
      (scaled y <= scaled x)%Z.

(** The Liquidity of the stock is not an infinity. *)
Definition finiteLiquidity (stock : record) : Prop :=
  match stock !! js "Liquidity" with
  | Some (VNumber (S754_infinity _)) => False
  | _ => True
  end.

(** Insertion before the first stock that the comparator does not put
    before [stock]: a stock that compares equal to [stock] stays after it. *)
Fixpoint insertByLiquidity (stock : record) (sorted : list record) : list record :=
  match sorted with
  | [] => [stock]
  | s :: sorted' =>
      match compareCF stock s with
      | Some Gt => s :: insertByLiquidity stock sorted'
      | _ => stock :: sorted
      end
  end.

(** An engine for the examples: its sort is the insertion sort with the
    comparator of line 50, each stock inserted in front of the sorted stocks
    that followed it, so that stocks that compare equal keep their order. *)
Definition exampleEngine : engine :=
  {| sortByLiquidity := foldr insertByLiquidity [];
     typeErrorMessage := "Cannot read properties of undefined" |}.

(** The sort order, by recursion on the array. *)
Fixpoint descending (l : list record) : Prop :=
  match l with
  | [] => True
  | a :: l' => Forall (fun b => compareCF a b <> Some Gt) l' /\ descending l'
  end.

Definition liquidityText : jstring :=
  unlines [js "Symbol,Liquidity"; js "AAA,5"; js "BBB,1200"; js "CCC,70"].

(** Its stocks, by descending Liquidity: 1200, 70 and 5. *)
Definition liquidityStocks : list record :=
  [<[js "Symbol" := VString "BBB"]>
     (<[js "Liquidity" := VNumber (S754_finite false 5277655813324800 (-42))]> ∅);
   <[js "Symbol" := VString "CCC"]>
     (<[js "Liquidity" := VNumber (S754_finite false 4925812092436480 (-46))]> ∅);
   <[js "Symbol" := VString "AAA"]>
     (<[js "Liquidity" := VNumber (S754_finite false 5629499534213120 (-50))]> ∅)].

(** Two stocks of the same Liquidity, written [5] and [5.0]. *)
Definition tiedLiquidityText : jstring :=
  unlines [js "Symbol,Liquidity"; js "AAA,5"; js "BBB,1200"; js "CCC,5.0"; js "DDD,70"].

(** Its stocks, by descending Liquidity, AAA before CCC as in the text. *)
Definition tiedLiquidityStocks : list record :=
  [<[js "Symbol" := VString "BBB"]>
     (<[js "Liquidity" := VNumber (S754_finite false 5277655813324800 (-42))]> ∅);
   <[js "Symbol" := VString "DDD"]>
     (<[js "Liquidity" := VNumber (S754_finite false 4925812092436480 (-46))]> ∅);
   <[js "Symbol" := VString "AAA"]>
     (<[js "Liquidity" := VNumber (S754_finite false 5629499534213120 (-50))]> ∅);
   <[js "Symbol" := VString "CCC"]>
     (<[js "Liquidity" := VNumber (S754_finite false 5629499534213120 (-50))]> ∅)].

(** A header row that holds the name [__proto__]. *)
Definition protoNameText : jstring :=
  unlines [js "Symbol,__proto__"; js "AAA,x"].

(** A Liquidity written [Infinity]. *)
Definition infiniteLiquidityText : jstring :=
  unlines [js "Symbol,Liquidity"; js "AAA,Infinity"].

(** What the line [l] at index [i] of the text makes [parseCsv] write to the
    console, lines 143 and 146. *)
Definition rowEvents (headers : list jstring) (i : nat) (l : jstring) : list event :=
  let line := trim l in
  if bool_decide (0 < length line) then
    if bool_decide (length (tokenize line) = length headers) then
      if hasSymbol (buildRow headers (tokenize line)) then []
      else [WarnMissingSymbol (i + 1) line]
    else [WarnColumnCount (i + 1) (length headers) (length (tokenize line)) line]
  else [].

Fixpoint rowsEvents (headers : list jstring) (i : nat) (ls : list jstring) : list event :=
  match ls with
  | [] => []
  | l :: ls' => rowEvents headers i l ++ rowsEvents headers (S i) ls'
  end.

(** The records of a list of lines, line by line: the lines before the
    header line are passed over, the lines after it give their records. *)
Fixpoint parseFrom (lines : list jstring) : list record :=
  match lines with
  | [] => []
  | l :: lines' =>
      if isHeaderLine l then omap (rowOf (headerRow l)) lines' else parseFrom lines'
  end.

(** ** The loops of [parseCsv] compute these functions *)

Section Loops.
Context {St A : Type}.

(** A loop whose body reads [l[j]] and neither breaks nor throws is a
    left fold over [l]; the console only grows. *)
Lemma iterate_fold (l : list A) (f : St -> A -> St) (body : nat -> St -> M (step St)) :
  (forall j x s c, l !! j = Some x ->
     exists evs, body j s c = (c ++ evs, Returned (Continue (f s x)))) ->
  forall n i s c, i + n = length l ->
    exists evs, iterate n i body s c = (c ++ evs, Returned (fold_left f (drop i l) s)).
Proof.
  intros Hbody n. induction n as [|n IH]; intros i s c Hlen.
  - rewrite drop_ge by lia. simpl. exists []. by rewrite app_nil_r.
  - destruct (lookup_lt_is_Some_2 l i) as [x Hx]; [lia|].
    rewrite (drop_S _ _ _ Hx). simpl.
    destruct (Hbody i x s c Hx) as [evs1 Hc1].
    unfold bind at 1. rewrite Hc1.
    destruct (IH (S i) (f s x) (c ++ evs1)) as [evs2 Hc2]; [lia|].
    exists (evs1 ++ evs2). rewrite Hc2. by rewrite app_assoc.
Qed.

Lemma forLoop_fold (l : list A) (f : St -> A -> St) (body : nat -> St -> M (step St)) :
  (forall j x s c, l !! j = Some x ->
     exists evs, body j s c = (c ++ evs, Returned (Continue (f s x)))) ->
  forall i s c, i <= length l ->
    exists evs, forLoop i (length l) body s c
      = (c ++ evs, Returned (fold_left f (drop i l) s)).
Proof.
  intros Hbody i s c Hi. unfold forLoop. apply iterate_fold; [assumption | lia].
Qed.
End Loops.

Ltac silent := exists []; rewrite app_nil_r; reflexivity.

Lemma scanStep_scanChar (line : jstring) j char st c :
  line !! j = Some char ->
  exists evs, scanStep line j st c = (c ++ evs, Returned (Continue (scanChar st char))).
Proof.
  intros Hj. destruct st as [[values currentValue] inQuotes].
  unfold scanStep, scanChar. rewrite Hj.
  destruct (Ascii.eqb char dquote); [silent|].
  destruct (Ascii.eqb char comma && negb inQuotes); silent.
Qed.

Lemma columnStep_setProperty (headers values : list jstring) j hv row c :
  zip headers values !! j = Some hv ->
  exists evs, columnStep headers values j row c
    = (c ++ evs, Returned (Continue (setProperty hv.1 (coerce hv.1 hv.2) row))).
Proof.
  intros Hj. destruct hv as [h v].
  apply lookup_zip_with_Some in Hj as (h' & v' & Heq & Hh & Hv).
  injection Heq as <- <-.
  unfold columnStep. rewrite Hh, Hv. simpl. silent.
Qed.

Lemma scan_loop (line : jstring) c :
  exists evs, forLoop 0 (length line) (scanStep line) ([], [], false) c
    = (c ++ evs, Returned (fold_left scanChar line ([], [], false))).
Proof.
  destruct (forLoop_fold line scanChar (scanStep line)) with (i := 0)
    (s := ([] : list jstring, [] : jstring, false)) (c := c) as [evs Hc'].
  - intros j x s c0 Hj. apply scanStep_scanChar, Hj.
  - lia.
  - exists evs. exact Hc'.
Qed.

Lemma column_loop (headers values : list jstring) c :
  length values = length headers ->
  exists evs, forLoop 0 (length headers) (columnStep headers values) ∅ c
    = (c ++ evs, Returned (buildRow headers values)).
Proof.
  intros Hlen.
  destruct (forLoop_fold (zip headers values)
              (fun row hv => setProperty hv.1 (coerce hv.1 hv.2) row)
              (columnStep headers values)) with (i := 0) (s := (∅ : record)) (c := c)
    as [evs Hc'].
  - intros j x s c0 Hj. apply columnStep_setProperty, Hj.
  - lia.
  - exists evs. rewrite length_zip_with, Hlen, Nat.min_id in Hc'. exact Hc'.
Qed.

Lemma rowStep_pushRow (lines headers : list jstring) i l data c :
  lines !! i = Some l ->
  exists evs, rowStep lines headers i data c
    = (c ++ evs, Returned (Continue (pushRow headers data l))).
Proof.
  intros Hi. unfold rowStep, pushRow, rowOf, tokenize. rewrite Hi. simpl.
  unfold bind at 1. simpl.
  destruct (bool_decide (0 < length (trim l))); [|silent].
  destruct (scan_loop (trim l) c) as [evs1 Hc1].
  unfold bind at 1. rewrite Hc1.
  destruct (fold_left scanChar (trim l) ([], [], false)) as [[values currentValue] inQuotes].
  destruct (bool_decide (length (values ++ [trim currentValue]) = length headers)) eqn:Hlen.
  - apply bool_decide_eq_true in Hlen.
    destruct (column_loop headers (values ++ [trim currentValue]) (c ++ evs1) Hlen)
      as [evs2 Hc2].
    unfold bind at 1. rewrite Hc2.
    destruct (hasSymbol _).
    + exists (evs1 ++ evs2). by rewrite app_assoc.
    + eexists. unfold bind, emit, ret. rewrite <- !app_assoc. reflexivity.
  - eexists. unfold bind, emit, ret. rewrite <- !app_assoc. reflexivity.
Qed.

Lemma fold_pushRow (headers : list jstring) (ls : list jstring) (data : list record) :
  fold_left (pushRow headers) ls data = data ++ omap (rowOf headers) ls.
Proof.
  revert data. induction ls as [|l ls IH]; intros data; simpl.
  - by rewrite app_nil_r.
  - rewrite IH. unfold pushRow. destruct (rowOf headers l); simpl.
    + by rewrite <- app_assoc.
    + reflexivity.
Qed.

Lemma row_loop (lines headers : list jstring) i c :
  i < length lines ->
  exists evs,
    forLoop (Z.to_nat (Z.of_nat i + 1)) (length lines) (rowStep lines headers) [] c
    = (c ++ evs, Returned (omap (rowOf headers) (drop (S i) lines))).
Proof.
  intros Hi.
  replace (Z.to_nat (Z.of_nat i + 1)) with (S i) by lia.
  destruct (forLoop_fold lines (pushRow headers) (rowStep lines headers))
    with (i := S i) (s := ([] : list record)) (c := c) as [evs Hc'].
  - intros j x s c0 Hj. apply rowStep_pushRow, Hj.
  - lia.
  - exists evs. rewrite Hc', fold_pushRow. reflexivity.
Qed.

Lemma headerStep_spec (lines : list jstring) i l st c :
  lines !! i = Some l ->
  headerStep lines i st c
  = (c, Returned (if isHeaderLine l then Break (Some (headerRow l), Z.of_nat i)
                  else Continue st)).
Proof.
  intros Hi. unfold headerStep, isHeaderLine, headerRow. rewrite Hi. simpl.
  unfold bind at 1. simpl.
  destruct (bool_decide (0 < length (trim l))); [|reflexivity]. simpl.
  destruct (List.filter _ (split comma (trim l))) as [|p0 parts]; [reflexivity|].
  simpl. unfold bind. simpl.
  destruct (includes (toLowerCase p0) "symbol"); reflexivity.
Qed.

Lemma header_iterate (lines : list jstring) st0 :
  forall n i c, i + n = length lines ->
    iterate n i (headerStep lines) st0 c
    = (c, Returned match headerIndexFrom i (drop i lines) with
                   | Some k => (Some (headerRow (default [] (lines !! k))), Z.of_nat k)
                   | None => st0
                   end).
Proof.
  induction n as [|n IH]; intros i c Hlen.
  - rewrite drop_ge by lia. reflexivity.
  - destruct (lookup_lt_is_Some_2 lines i) as [l Hl]; [lia|].
    rewrite (drop_S _ _ _ Hl). simpl.
    unfold bind. rewrite (headerStep_spec _ _ _ _ _ Hl).
    destruct (isHeaderLine l).
    + rewrite Hl. reflexivity.
    + apply IH. lia.
Qed.

Lemma headerIndexFrom_bounds (lines : list jstring) :
  forall i k, headerIndexFrom i lines = Some k -> i <= k < i + length lines.
Proof.
  induction lines as [|l lines IH]; intros i k; simpl; [discriminate|].
  destruct (isHeaderLine l).
  - intros [= <-]. lia.
  - intros H. apply IH in H. lia.
Qed.

Lemma headerIndex_lt (lines : list jstring) k :
  headerIndex lines = Some k -> k < length lines.
Proof. intros H. apply headerIndexFrom_bounds in H. lia. Qed.

(** With a header line, [parseCsv] logs the header row first and returns
    the records of the lines after it. *)
Lemma parseCsv_header (csvText : jstring) (hl : jstring) (c : console) :
  headerLine csvText = Some hl ->
  exists evs, parseCsv csvText c
    = (c ++ LogHeaders (headerRow hl) :: evs,
       Returned (omap (rowOf (headerRow hl)) (dataLines csvText))).
Proof.
  unfold headerLine, dataLines, parseCsv, forLoop.
  destruct (headerIndex (split LF csvText)) as [k|] eqn:Hk; [|discriminate].
  intros Hl. pose proof (headerIndex_lt _ _ Hk) as Hlt.
  unfold bind at 1.
  rewrite Nat.sub_0_r, (header_iterate _ _ _ 0 c) by lia.
  rewrite drop_0. fold (headerIndex (split LF csvText)). rewrite Hk, Hl. simpl.
  unfold bind at 1. simpl.
  destruct (row_loop (split LF csvText) (headerRow hl) k
              (c ++ [LogHeaders (headerRow hl)]) Hlt) as [evs1 Hc1].
  unfold forLoop in Hc1. unfold bind at 1. rewrite Hc1.
  unfold bind at 1. simpl.
  destruct (bool_decide _); eexists; unfold bind, emit, ret;
    rewrite <- !app_assoc; simpl; reflexivity.
Qed.

(** Without one it warns and returns no record. *)
Lemma parseCsv_no_header (csvText : jstring) (c : console) :
  headerLine csvText = None ->
  parseCsv csvText c = (c ++ [WarnNoHeader], Returned []).
Proof.
  unfold headerLine, parseCsv, forLoop. intros Hl.
  unfold bind at 1.
  rewrite Nat.sub_0_r, (header_iterate _ _ _ 0 c) by lia.
  rewrite drop_0. fold (headerIndex (split LF csvText)).
  destruct (headerIndex (split LF csvText)) as [k|] eqn:Hk; [|reflexivity].
  apply headerIndex_lt, lookup_lt_is_Some_2 in Hk as [l Hk]. congruence.
Qed.

Lemma parse_header (csvText : jstring) (hl : jstring) :
  headerLine csvText = Some hl ->
  parse csvText = omap (rowOf (headerRow hl)) (dataLines csvText).
Proof.
  unfold headerLine, dataLines, parse.
  destruct (headerIndex (split LF csvText)); [|discriminate].
  intros ->. reflexivity.
Qed.

Lemma parse_no_header (csvText : jstring) :
  headerLine csvText = None -> parse csvText = [].
Proof.
  unfold headerLine, parse.
  destruct (headerIndex (split LF csvText)); [|reflexivity].
  intros ->. reflexivity.
Qed.

(** [parseCsv] returns on every text and every console; what it returns is
    [parse csvText], and the console only grows. *)
Lemma parseCsv_returns (csvText : jstring) (c : console) :
  exists evs, parseCsv csvText c = (c ++ evs, Returned (parse csvText)).
Proof.
  destruct (headerLine csvText) as [hl|] eqn:Hl.
  - destruct (parseCsv_header csvText hl c Hl) as [evs Hevs].
    eexists. rewrite Hevs, (parse_header _ _ Hl). reflexivity.
  - eexists. rewrite (parseCsv_no_header _ _ Hl), (parse_no_header _ Hl). reflexivity.
Qed.

Lemma parseCsv_data (csvText : jstring) (c c' : console) (data : list record) :
  parseCsv csvText c = (c', Returned data) -> data = parse csvText.
Proof.
  intros H. destruct (parseCsv_returns csvText c) as [evs Hevs]. congruence.
Qed.

(** ** Strings *)

Lemma trimStart_suffix (s : jstring) : exists pre, s = pre ++ trimStart s.
Proof.
  induction s as [|c s [pre IH]]; simpl.
  - exists []. reflexivity.
  - destruct (isWhiteSpace c).
    + exists (c :: pre). simpl. by rewrite <- IH.
    + exists []. reflexivity.
Qed.

Lemma elem_of_trimStart (x : ascii) (s : jstring) : x ∈ trimStart s -> x ∈ s.
Proof.
  intros Hx. destruct (trimStart_suffix s) as [pre Hpre].
  rewrite Hpre. apply elem_of_app. by right.
Qed.

Lemma elem_of_rev (x : ascii) (s : jstring) : x ∈ rev s -> x ∈ s.
Proof. rewrite !list_elem_of_In. apply in_rev. Qed.

Lemma elem_of_trim (x : ascii) (s : jstring) : x ∈ trim s -> x ∈ s.
Proof.
  unfold trim, trimEnd. intros Hx.
  apply elem_of_rev in Hx. apply elem_of_trimStart in Hx.
  apply elem_of_rev in Hx. by apply elem_of_trimStart.
Qed.

Lemma replaceEdgeQuotesFrom_id (s : jstring) (atStart : bool) :
  dquote ∉ s -> replaceEdgeQuotesFrom atStart s = s.
Proof.
  revert atStart. induction s as [|c s IH]; intros atStart Hq; simpl; [reflexivity|].
  apply not_elem_of_cons in Hq as [Hc Hs].
  destruct (Ascii.eqb_spec c dquote) as [->|_]; [done|].
  simpl. by rewrite IH.
Qed.

Lemma replaceEdgeQuotes_id (s : jstring) : dquote ∉ s -> replaceEdgeQuotes s = s.
Proof. apply replaceEdgeQuotesFrom_id. Qed.

Lemma replaceEdgeQuotesFrom_false (s : jstring) :
  replaceEdgeQuotesFrom false s = stripTrailingQuote s.
Proof.
  unfold stripTrailingQuote.
  induction s as [|c s IH]; [reflexivity|].
  destruct s as [|c' s'].
  - simpl. destruct (Ascii.eqb c dquote); reflexivity.
  - change (replaceEdgeQuotesFrom false (c :: c' :: s'))
      with (if Ascii.eqb c dquote && false
            then replaceEdgeQuotesFrom false (c' :: s')
            else c :: replaceEdgeQuotesFrom false (c' :: s')).
    rewrite andb_false_r, IH.
    change (last (c :: c' :: s')) with (last (c' :: s')).
    destruct (last (c' :: s')) as [d|]; [|reflexivity].
    destruct (Ascii.eqb d dquote); [|reflexivity].
    simpl. by rewrite Nat.sub_0_r.
Qed.

(** The regular expression of the source strips one leading and one
    trailing double quote. *)
Lemma replaceEdgeQuotes_strip (s : jstring) :
  replaceEdgeQuotes s = stripTrailingQuote (stripLeadingQuote s).
Proof.
  unfold replaceEdgeQuotes. destruct s as [|c s]; [reflexivity|].
  simpl. destruct (Ascii.eqb_spec c dquote) as [->|Hc]; simpl.
  - apply replaceEdgeQuotesFrom_false.
  - rewrite replaceEdgeQuotesFrom_false. unfold stripTrailingQuote.
    destruct s as [|c' s'].
    + simpl. by destruct (Ascii.eqb_spec c dquote).
    + change (last (c :: c' :: s')) with (last (c' :: s')).
      destruct (last (c' :: s')) as [d|]; [|reflexivity].
      destruct (Ascii.eqb d dquote); [|reflexivity].
      simpl. by rewrite Nat.sub_0_r.
Qed.

Lemma normalizeHeader_normalizeToken (token : jstring) :
  normalizeHeader token = normalizeToken token.
Proof.
  unfold normalizeHeader, normalizeToken, replaceSpaces.
  by rewrite replaceEdgeQuotes_strip.
Qed.

(** *** The scanner never stores a double quote *)

Lemma scanChar_quoteFree st char : quoteFree st -> quoteFree (scanChar st char).
Proof.
  destruct st as [[values currentValue] inQuotes]. unfold quoteFree, scanChar. simpl.
  intros [Hv Hc].
  destruct (Ascii.eqb_spec char dquote) as [->|Hne]; [done|].
  destruct (Ascii.eqb char comma && negb inQuotes); simpl.
  - split; [|apply not_elem_of_nil].
    apply Forall_app. split; [done|].
    apply Forall_singleton. intros Hin. by apply elem_of_trim in Hin.
  - split; [done|]. rewrite elem_of_app, list_elem_of_singleton. intros [?|?]; [done|].
    by apply Hne.
Qed.

Lemma scan_quoteFree (line : jstring) st :
  quoteFree st -> quoteFree (fold_left scanChar line st).
Proof.
  revert st. induction line as [|char line IH]; intros st Hst; simpl; [done|].
  apply IH, scanChar_quoteFree, Hst.
Qed.

Lemma tokenize_quoteFree (line : jstring) : Forall (fun v => dquote ∉ v) (tokenize line).
Proof.
  unfold tokenize.
  pose proof (scan_quoteFree line ([], [], false)) as H.
  destruct (fold_left scanChar line ([], [], false)) as [[values currentValue] inQuotes].
  destruct H as [Hv Hc]; [split; [constructor | apply not_elem_of_nil]|].
  simpl in *. apply Forall_app. split; [done|].
  apply Forall_singleton. intros Hin. by apply elem_of_trim in Hin.
Qed.

(** ** Rows *)

Lemma last_is_Some {X} (l : list X) : is_Some (last l) <-> l <> [].
Proof.
  destruct l as [|x l] using rev_ind.
  - split; [intros [? [=]] | done].
  - rewrite last_snoc. split; [intros _; by destruct l | eauto].
Qed.

(** A property of a row object holds the coerced text of the last column of
    its name; [__proto__] never becomes a property. *)
Lemma build_lookup (hvs : list (jstring * jstring)) (k : jstring) :
  fold_left (fun row hv => setProperty hv.1 (coerce hv.1 hv.2) row) hvs (∅ : record) !! k
  = if bool_decide (k = js "__proto__") then None
    else coerce k <$> last (omap (fun hv : jstring * jstring =>
                                    if bool_decide (hv.1 = k) then Some hv.2 else None) hvs).
Proof.
  revert k. induction hvs as [|[h v] hvs IH] using rev_ind; intros k.
  - simpl. rewrite lookup_empty. by destruct (bool_decide _).
  - rewrite fold_left_app, omap_app. simpl. unfold setProperty at 1.
    destruct (bool_decide_reflect (h = js "__proto__")) as [->|Hh].
    + rewrite IH. destruct (bool_decide_reflect (k = js "__proto__")) as [->|Hk]; [done|].
      rewrite bool_decide_eq_false_2 by done. by rewrite app_nil_r.
    + destruct (decide (h = k)) as [->|Hhk].
      * rewrite lookup_insert_eq, bool_decide_eq_false_2 by done.
        rewrite bool_decide_eq_true_2 by done. by rewrite last_snoc.
      * rewrite lookup_insert_ne, IH by done.
        rewrite (bool_decide_eq_false_2 (h = k)) by done. by rewrite app_nil_r.
Qed.

Lemma buildRow_lookup (headers values : list jstring) (k : jstring) :
  buildRow headers values !! k
  = if bool_decide (k = js "__proto__") then None
    else coerce k <$> columnText k headers values.
Proof. apply build_lookup. Qed.

Lemma columnText_is_Some (h : jstring) (headers values : list jstring) :
  length values = length headers ->
  is_Some (columnText h headers values) <-> h ∈ headers.
Proof.
  intros Hlen. unfold columnText. rewrite last_is_Some. split.
  - intros Hne. destruct (omap _ _) as [|v l] eqn:Hom; [done|].
    assert (v ∈ v :: l) as Hv by left. rewrite <- Hom in Hv.
    apply list_elem_of_omap in Hv as ([h' v'] & Hin & Hsome). simpl in Hsome.
    destruct (bool_decide_reflect (h' = h)) as [->|]; [|done].
    apply list_elem_of_lookup in Hin as [i Hi].
    apply lookup_zip_with_Some in Hi as (? & ? & [= <- <-] & Hh & _).
    apply list_elem_of_lookup. eauto.
  - intros Hin Hnil. apply list_elem_of_lookup in Hin as [i Hi].
    destruct (lookup_lt_is_Some_2 values i) as [v Hv].
    { rewrite Hlen. by eapply lookup_lt_Some. }
    assert (v ∈ omap (fun hv : jstring * jstring =>
                        if bool_decide (hv.1 = h) then Some hv.2 else None)
                  (zip headers values)) as Hom.
    { apply list_elem_of_omap. exists (h, v). split.
      - apply list_elem_of_lookup. exists i. apply lookup_zip_with_Some. eauto.
      - simpl. by rewrite bool_decide_eq_true_2. }
    rewrite Hnil in Hom. by apply elem_of_nil in Hom.
Qed.

(** The keys of a row are the header names, [__proto__] excepted. *)
Lemma buildRow_dom (headers values : list jstring) :
  length values = length headers ->
  dom (buildRow headers values) = list_to_set headers ∖ {[js "__proto__"]}.
Proof.
  intros Hlen. apply set_eq. intros k.
  rewrite elem_of_dom, buildRow_lookup, elem_of_difference, elem_of_list_to_set,
    elem_of_singleton.
  rewrite <- (columnText_is_Some k headers values Hlen).
  destruct (bool_decide_reflect (k = js "__proto__")) as [->|Hk].
  - split; [intros [? [=]] | intros [_ []]; done].
  - rewrite fmap_is_Some. tauto.
Qed.

Lemma length_remove_dups_le {A : Type} `{EqDecision A} (l : list A) :
  length (remove_dups l) <= length l.
Proof.
  induction l as [|x l IH]; simpl; [done|].
  destruct (decide_rel _ x l); simpl; lia.
Qed.

Lemma length_remove_dups_lt {A : Type} `{EqDecision A} (l : list A) :
  ~ NoDup l -> length (remove_dups l) < length l.
Proof.
  induction l as [|x l IH]; intros Hnd.
  - destruct Hnd. constructor.
  - simpl. destruct (decide_rel _ x l) as [Hin|Hin]; simpl.
    + pose proof (length_remove_dups_le l). lia.
    + assert (~ NoDup l) as Hl by (intros Hl; apply Hnd; by constructor).
      specialize (IH Hl). lia.
Qed.

Lemma remove_dups_NoDup {A : Type} `{EqDecision A} (l : list A) :
  NoDup l -> remove_dups l = l.
Proof.
  induction 1 as [|x l Hin Hnd IH]; simpl; [done|].
  destruct (decide_rel _ x l); [done|]. by rewrite IH.
Qed.

(** Without the name [__proto__], a row has one field for each distinct
    header name. *)
Lemma buildRow_fields (headers values : list jstring) :
  length values = length headers ->
  js "__proto__" ∉ headers ->
  dom (buildRow headers values) = list_to_set headers /\
  size (buildRow headers values) = length (remove_dups headers).
Proof.
  intros Hlen Hproto.
  assert (dom (buildRow headers values) = list_to_set headers) as Hdom.
  { rewrite (buildRow_dom _ _ Hlen). apply set_eq. intros k.
    rewrite elem_of_difference, elem_of_list_to_set, elem_of_singleton.
    split; [tauto|]. intros Hin. split; [done|]. by intros ->. }
  split; [done|].
  rewrite <- size_dom, Hdom.
  rewrite <- (size_list_to_set (C := gset jstring) (remove_dups headers))
    by apply NoDup_remove_dups.
  f_equal. apply set_eq. intros k.
  by rewrite !elem_of_list_to_set, elem_of_remove_dups.
Qed.

Lemma columnText_elem (h : jstring) (headers values : list jstring) (v : jstring) :
  columnText h headers values = Some v -> v ∈ values.
Proof.
  unfold columnText. intros Hs.
  assert (v ∈ omap (fun hv : jstring * jstring =>
                      if bool_decide (hv.1 = h) then Some hv.2 else None)
                (zip headers values)) as Hin.
  { destruct (omap _ _) as [|x l] using rev_ind; [done|].
    rewrite last_snoc in Hs. injection Hs as ->. apply elem_of_app. right. left. }
  apply list_elem_of_omap in Hin as ([h' v'] & Hin & Hsome). simpl in Hsome.
  destruct (bool_decide (h' = h)); [|done]. injection Hsome as ->.
  by apply elem_of_zip_r in Hin.
Qed.

Lemma columnText_quoteFree (h : jstring) (headers : list jstring) (line v : jstring) :
  columnText h headers (tokenize line) = Some v -> dquote ∉ v.
Proof.
  intros Hv%columnText_elem.
  pose proof (tokenize_quoteFree line) as Hq.
  rewrite Forall_forall in Hq. by apply Hq.
Qed.

(** The test on [row.Symbol], on the tokens of a line. *)
Lemma hasSymbol_columnText (headers : list jstring) (line : jstring) :
  hasSymbol (buildRow headers (tokenize line))
  = match columnText "Symbol" headers (tokenize line) with
    | Some s => bool_decide (s <> [])
    | None => false
    end.
Proof.
  unfold hasSymbol. rewrite buildRow_lookup.
  rewrite (bool_decide_eq_false_2 (js "Symbol" = js "__proto__")) by done.
  destruct (columnText _ _ _) as [s|] eqn:Hs; [|reflexivity].
  simpl. rewrite (replaceEdgeQuotes_id s (columnText_quoteFree _ _ _ _ Hs)).
  by destruct s.
Qed.

Lemma length_pos_nonempty (s : jstring) : bool_decide (0 < length s) = bool_decide (s <> []).
Proof. destruct s; reflexivity. Qed.

Lemma rowOf_qualifies (headers : list jstring) (l : jstring) :
  rowOf headers l = if qualifies headers l then Some (recordOf headers l) else None.
Proof.
  unfold rowOf, qualifies, recordOf.
  rewrite length_pos_nonempty, hasSymbol_columnText.
  destruct (bool_decide (trim l <> [])); [|reflexivity].
  destruct (bool_decide (length _ = _)); [|reflexivity].
  simpl. destruct (columnText _ _ _) as [s|]; [|reflexivity].
  destruct (bool_decide (s <> [])); reflexivity.
Qed.

Lemma qualifies_Qualifies (headers : list jstring) (l : jstring) :
  qualifies headers l = true <-> Qualifies headers l.
Proof.
  unfold qualifies, Qualifies.
  rewrite !andb_true_iff, !bool_decide_eq_true.
  destruct (columnText _ _ _) as [s|].
  - rewrite bool_decide_eq_true. split.
    + intros [[? ?] ?]. eauto.
    + intros (? & ? & s' & [= <-] & ?). done.
  - split; [intros [_ [=]] | intros (_ & _ & s' & [=] & _)].
Qed.

Lemma omap_cons {X Y} (f : X -> option Y) (x : X) (l : list X) :
  omap f (x :: l) = match f x with Some y => y :: omap f l | None => omap f l end.
Proof. reflexivity. Qed.

Lemma omap_rowOf (headers : list jstring) (ls : list jstring) :
  omap (rowOf headers) ls = map (recordOf headers) (filter (Qualifies headers) ls).
Proof.
  induction ls as [|l ls IH]; [reflexivity|].
  rewrite filter_cons, omap_cons, rowOf_qualifies, IH.
  destruct (decide (Qualifies headers l)) as [HQ|HQ].
  - apply qualifies_Qualifies in HQ. by rewrite HQ.
  - destruct (qualifies headers l) eqn:Hq; [|reflexivity].
    apply qualifies_Qualifies in Hq. done.
Qed.

(** ** The header line *)

Lemma filter_first {X} (f : X -> bool) (l : list X) (x : X) :
  (exists r, List.filter f l = x :: r) <->
  exists l1 l2, l = l1 ++ x :: l2 /\ Forall (fun y => f y = false) l1 /\ f x = true.
Proof.
  induction l as [|y l IH]; simpl.
  - split; [intros [r [=]] | intros (l1 & l2 & H & _); by destruct l1].
  - destruct (f y) eqn:Hy.
    + split.
      * intros [r [= -> _]]. exists [], l. by repeat split.
      * intros (l1 & l2 & Heq & Hall & Hx). destruct l1 as [|z l1].
        -- injection Heq as -> _. eauto.
        -- injection Heq as -> _. apply Forall_cons in Hall as [Hz _]. congruence.
    + rewrite IH. split.
      * intros (l1 & l2 & -> & Hall & Hx). exists (y :: l1), l2.
        repeat split; [|done]. by constructor.
      * intros (l1 & l2 & Heq & Hall & Hx). destruct l1 as [|z l1].
        -- injection Heq as -> _. congruence.
        -- injection Heq as -> ->. apply Forall_cons in Hall as [_ Hall]. eauto.
Qed.

Lemma startsWith_spec (s p : jstring) :
  startsWith s p = true <-> exists post, s = p ++ post.
Proof.
  revert s. induction p as [|a p IH]; intros s.
  - split; [intros _; by exists s | by destruct s].
  - destruct s as [|c s]; simpl.
    + split; [done | intros [post [=]]].
    + rewrite andb_true_iff, IH. split.
      * intros [Hac [post ->]]. apply Ascii.eqb_eq in Hac as ->. eauto.
      * intros [post [= -> ->]]. split; [apply Ascii.eqb_refl | eauto].
Qed.

Lemma includes_spec (s p : jstring) :
  includes s p = true <-> exists pre post, s = pre ++ p ++ post.
Proof.
  induction s as [|c s IH].
  - change (includes [] p) with (startsWith [] p || false).
    rewrite orb_false_r, startsWith_spec. split.
    + intros [post ->]. by exists [], post.
    + intros (pre & post & H). destruct pre; [eauto | done].
  - change (includes (c :: s) p) with (startsWith (c :: s) p || includes s p).
    rewrite orb_true_iff, startsWith_spec, IH. split.
    + intros [[post ->] | (pre & post & ->)]; [by exists [], post|].
      by exists (c :: pre), post.
    + intros (pre & post & H). destruct pre as [|c' pre].
      * left. eauto.
      * right. injection H as -> ->. eauto.
Qed.

(** On the letters of "symbol", lower-casing gives the letter exactly from
    the letter and from its capital. *)
Lemma toLowerChar_letter (c l : ascii) :
  l ∈ js "symbol" -> toLowerChar c = l <-> sameLetter c l.
Proof.
  intros Hl. unfold sameLetter.
  assert (l = "s" \/ l = "y" \/ l = "m" \/ l = "b" \/ l = "o" \/ l = "l")%char as Hcases.
  { unfold js in Hl. simpl in Hl. repeat (apply elem_of_cons in Hl as [->|Hl]; [tauto|]).
    by apply elem_of_nil in Hl. }
  destruct c as [[] [] [] [] [] [] [] []];
    destruct Hcases as [->|[->|[->|[->|[->| ->]]]]];
    vm_compute; split; intros H;
    first [ discriminate H
          | reflexivity
          | solve [destruct H as [H|H]; discriminate H]
          | solve [left; reflexivity]
          | solve [right; reflexivity] ].
Qed.

Lemma toLowerCase_word (mid word : jstring) :
  Forall (fun l => l ∈ js "symbol") word ->
  toLowerCase mid = word <-> Forall2 sameLetter mid word.
Proof.
  intros Hword. revert mid. induction Hword as [|l word Hl _ IH]; intros mid.
  - destruct mid; simpl; split; try done. inversion 1.
  - destruct mid as [|c mid]; simpl.
    + split; [done | inversion 1].
    + split.
      * intros [= Hc Hmid]. constructor; [by apply toLowerChar_letter | by apply IH].
      * intros H. apply Forall2_cons in H as [Hc Hmid].
        f_equal; [by apply toLowerChar_letter | by apply IH].
Qed.

Lemma includes_symbol (token : jstring) :
  includes (toLowerCase token) "symbol" = true <-> containsIgnoringCase token "symbol".
Proof.
  assert (Forall (fun l => l ∈ js "symbol") (js "symbol")) as Hword.
  { apply Forall_forall. auto. }
  rewrite includes_spec. unfold containsIgnoringCase, toLowerCase. split.
  - intros (pre' & post' & H).
    apply map_eq_app in H as (pre & rest & -> & _ & H).
    apply map_eq_app in H as (mid & post & -> & H & _).
    exists pre, mid, post. split; [done|]. by apply toLowerCase_word.
  - intros (pre & mid & post & -> & H).
    apply toLowerCase_word in H; [|done].
    exists (map toLowerChar pre), (map toLowerChar post).
    by rewrite !map_app, <- H.
Qed.

(** The test of the source is the test of the specification. *)
Lemma isHeaderLine_HeaderLine (l : jstring) : isHeaderLine l = true <-> HeaderLine l.
Proof.
  unfold isHeaderLine, HeaderLine, firstNonEmptyToken.
  rewrite andb_true_iff, length_pos_nonempty, bool_decide_eq_true.
  apply and_iff_compat_l. split.
  - destruct (List.filter _ _) as [|p0 parts] eqn:Hf; [done|].
    intros Hinc. apply includes_symbol in Hinc.
    assert (exists r, List.filter (fun part => bool_decide (0 < length (trim part)))
                        (split comma (trim l)) = p0 :: r) as Hex by eauto.
    apply filter_first in Hex as (blanks & rest & Heq & Hall & Hp0).
    exists p0. split; [|done]. exists blanks, rest. repeat split; [done| |].
    + eapply Forall_impl; [exact Hall|]. intros t Ht. simpl in Ht.
      rewrite length_pos_nonempty in Ht. apply bool_decide_eq_false in Ht.
      by destruct (trim t); [|exfalso; apply Ht].
    + rewrite length_pos_nonempty in Hp0. by apply bool_decide_eq_true in Hp0.
  - intros (token & (blanks & rest & Heq & Hall & Htok) & Hinc).
    assert (exists r, List.filter (fun part => bool_decide (0 < length (trim part)))
                        (split comma (trim l)) = token :: r) as [r Hr].
    { apply filter_first. exists blanks, rest. repeat split; [done| |].
      - eapply Forall_impl; [exact Hall|]. intros t Ht. simpl. by rewrite Ht.
      - rewrite length_pos_nonempty. by apply bool_decide_eq_true. }
    rewrite Hr. by apply includes_symbol.
Qed.

Lemma headerIndexFrom_first (lines : list jstring) :
  forall i k, headerIndexFrom i lines = Some k <->
    exists j, k = i + j /\
      (exists l, lines !! j = Some l /\ isHeaderLine l = true) /\
      (forall j' l', j' < j -> lines !! j' = Some l' -> isHeaderLine l' = false).
Proof.
  induction lines as [|l lines IH]; intros i k; simpl.
  - split; [done | intros (j & _ & (l & [=] & _) & _)].
  - destruct (isHeaderLine l) eqn:Hl.
    + split.
      * intros [= <-]. exists 0. repeat split; [lia | eauto | lia].
      * intros (j & -> & _ & Hfirst). destruct j as [|j]; [f_equal; lia|].
        specialize (Hfirst 0 l). simpl in Hfirst. rewrite Hfirst in Hl; [done | lia | done].
    + rewrite IH. split.
      * intros (j & -> & Hj & Hfirst). exists (S j). repeat split; [lia | done |].
        intros [|j'] l' Hlt; simpl; [congruence|]. apply Hfirst. lia.
      * intros (j & -> & (l0 & Hj & Hl0) & Hfirst). destruct j as [|j].
        -- simpl in Hj. congruence.
        -- exists j. repeat split; [lia | eauto |].
           intros j' l' Hlt Hj'. apply (Hfirst (S j') l'); [lia | done].
Qed.

(** [headerIndex] finds the first line that passes the test. *)
Lemma headerIndex_first (lines : list jstring) (i : nat) :
  headerIndex lines = Some i <->
    (exists l, lines !! i = Some l /\ HeaderLine l) /\
    (forall j l, j < i -> lines !! j = Some l -> ~ HeaderLine l).
Proof.
  unfold headerIndex. rewrite headerIndexFrom_first. split.
  - intros (j & -> & (l & Hl & Hh) & Hfirst). simpl. split.
    + exists l. split; [done|]. by apply isHeaderLine_HeaderLine.
    + intros j' l' Hlt Hj' HH. apply isHeaderLine_HeaderLine in HH.
      rewrite (Hfirst j' l' Hlt Hj') in HH. done.
  - intros [(l & Hl & Hh) Hfirst]. exists i. repeat split.
    + exists l. split; [done|]. by apply isHeaderLine_HeaderLine.
    + intros j' l' Hlt Hj'. destruct (isHeaderLine l') eqn:E; [|done].
      apply isHeaderLine_HeaderLine in E. by destruct (Hfirst j' l' Hlt Hj').
Qed.

Lemma headerIndex_None (lines : list jstring) :
  (forall l, l ∈ lines -> ~ HeaderLine l) -> headerIndex lines = None.
Proof.
  intros Hnone. destruct (headerIndex lines) as [i|] eqn:Hi; [|done].
  apply headerIndex_first in Hi as [(l & Hl & Hh) _].
  destruct (Hnone l); [|done]. apply list_elem_of_lookup. eauto.
Qed.

(** ** Emitted records *)

Lemma detected_headerIndex (csvText : jstring) (i : nat) (hl : jstring) :
  DetectedHeader csvText i hl <->
  headerIndex (split LF csvText) = Some i /\ split LF csvText !! i = Some hl.
Proof.
  unfold DetectedHeader. rewrite headerIndex_first. split.
  - intros (Hl & Hh & Hfirst). eauto.
  - intros [[(l & Hl & Hh) Hfirst] Hl']. assert (l = hl) as -> by congruence. done.
Qed.

Lemma detected_headerLine (csvText : jstring) (i : nat) (hl : jstring) :
  DetectedHeader csvText i hl ->
  headerLine csvText = Some hl /\ dataLines csvText = drop (S i) (split LF csvText).
Proof.
  intros [Hi Hl]%detected_headerIndex. unfold headerLine, dataLines. by rewrite Hi.
Qed.

Lemma headerLine_detected (csvText : jstring) (hl : jstring) :
  headerLine csvText = Some hl -> exists i, DetectedHeader csvText i hl.
Proof.
  unfold headerLine. destruct (headerIndex (split LF csvText)) as [i|] eqn:Hi; [|done].
  intros Hl. exists i. by apply detected_headerIndex.
Qed.

(** With a detected header, [parseCsv] logs the header row and returns the
    records of the qualifying lines after it, in their order. *)
Lemma parseCsv_detected (csvText : jstring) (i : nat) (hl : jstring) (c : console) :
  DetectedHeader csvText i hl ->
  exists evs, parseCsv csvText c
    = (c ++ LogHeaders (headerRow hl) :: evs,
       Returned (map (recordOf (headerRow hl))
                   (filter (Qualifies (headerRow hl)) (drop (S i) (split LF csvText))))).
Proof.
  intros [Hl Hd]%detected_headerLine.
  destruct (parseCsv_header csvText hl c Hl) as [evs Hevs].
  exists evs. by rewrite Hevs, Hd, omap_rowOf.
Qed.

(** Every record that [parse] returns is the record of a qualifying line
    after the detected header. *)
Lemma parse_emitted (csvText : jstring) (r : record) :
  r ∈ parse csvText ->
  exists i hl l,
    DetectedHeader csvText i hl /\
    l ∈ drop (S i) (split LF csvText) /\
    Qualifies (headerRow hl) l /\
    r = recordOf (headerRow hl) l.
Proof.
  intros Hr. destruct (headerLine csvText) as [hl|] eqn:Hl.
  - destruct (headerLine_detected _ _ Hl) as [i Hi].
    destruct (detected_headerLine _ _ _ Hi) as [_ Hd].
    rewrite (parse_header _ _ Hl), Hd, omap_rowOf in Hr.
    apply list_elem_of_fmap in Hr as (l & -> & Hin).
    apply list_elem_of_filter in Hin as [HQ Hin].
    exists i, hl, l. done.
  - rewrite (parse_no_header _ Hl) in Hr. by apply elem_of_nil in Hr.
Qed.

Lemma coerce_VString (h v s : jstring) :
  coerce h v = VString s -> s = replaceEdgeQuotes v.
Proof.
  unfold coerce.
  destruct (isPriceOrVolume h); destruct (bool_decide (h = js "Percent_change"));
    simpl; congruence.
Qed.

Lemma coerce_priceOrVolume (h v : jstring) :
  isPriceOrVolume h = true ->
  coerce h v = VNumber (orZero (parseFloat (removeCommas (replaceEdgeQuotes v)))).
Proof.
  intros Hh. unfold coerce. rewrite Hh.
  rewrite bool_decide_eq_false_2; [reflexivity|].
  intros ->. vm_compute in Hh. done.
Qed.

Lemma coerce_percent (v : jstring) :
  coerce "Percent_change" v = VNumber (orZero (parseFloat (replaceEdgeQuotes v))).
Proof. reflexivity. Qed.

(** * The claims *)

(** C1.  For every text with a detected header and at least one later line
    that is well formed (as many tokens as the header row) with a Symbol
    that is not empty, [parseCsv] returns a sequence that is not empty, as
    long as the number of such lines, holding their records in the order of
    the lines. *)
Theorem parseCsv_length_and_order (csvText : jstring) (i : nat) (hl : jstring) (c : console) :
  DetectedHeader csvText i hl ->
  filter (Qualifies (headerRow hl)) (drop (S i) (split LF csvText)) <> [] ->
  exists c' data,
    parseCsv csvText c = (c', Returned data) /\
    data <> [] /\
    length data
      = length (filter (Qualifies (headerRow hl)) (drop (S i) (split LF csvText))) /\
    data = map (recordOf (headerRow hl))
             (filter (Qualifies (headerRow hl)) (drop (S i) (split LF csvText))).
Proof.
  intros Hd Hrows.
  destruct (parseCsv_detected csvText i hl c Hd) as [evs Hevs].
  eexists _, _. split; [exact Hevs|]. split; [|split].
  - intros Hnil. apply map_eq_nil in Hnil. by apply Hrows.
  - by rewrite length_map.
  - reflexivity.
Qed.

Lemma parseCsv_length_and_order_witness :
  DetectedHeader mixedRowsText 0 "Symbol,Name,Price" /\
  length (filter (Qualifies (headerRow "Symbol,Name,Price"))
            (drop 1 (split LF mixedRowsText))) = 2 /\
  exists c' data,
    parseCsv mixedRowsText [] = (c', Returned data) /\
    data <> [] /\
    length data
      = length (filter (Qualifies (headerRow "Symbol,Name,Price"))
                  (drop 1 (split LF mixedRowsText))) /\
    data = map (recordOf (headerRow "Symbol,Name,Price"))
             (filter (Qualifies (headerRow "Symbol,Name,Price"))
                (drop 1 (split LF mixedRowsText))).
Proof.
  assert (DetectedHeader mixedRowsText 0 "Symbol,Name,Price") as Hd.
  { apply detected_headerIndex. split; vm_compute; reflexivity. }
  split; [exact Hd|]. split; [vm_compute; reflexivity|].
  apply (parseCsv_length_and_order mixedRowsText 0 "Symbol,Name,Price" [] Hd).
  vm_compute. discriminate.
Defined.

(** C4.  [parseCsv] is total: on every text, and whatever the console
    holds, it returns a sequence of records and does not throw. *)
Theorem parseCsv_never_throws (csvText : jstring) (c : console) :
  exists c' data, parseCsv csvText c = (c', Returned data).
Proof.
  destruct (parseCsv_returns csvText c) as [evs Hevs]. eauto.
Qed.

(** C9.  [parseCsv] is deterministic: what it returns does not depend on the
    console it starts from, and a second call on the same text, after the
    first, returns the same records. *)
Theorem parseCsv_deterministic (csvText : jstring) (c1 c2 : console) :
  (parseCsv csvText c1).2 = (parseCsv csvText c2).2 /\
  (parseCsv csvText (parseCsv csvText c1).1).2 = (parseCsv csvText c1).2.
Proof.
  destruct (parseCsv_returns csvText c1) as [evs1 H1].
  destruct (parseCsv_returns csvText c2) as [evs2 H2].
  destruct (parseCsv_returns csvText (parseCsv csvText c1).1) as [evs3 H3].
  rewrite H3, H1, H2. done.
Qed.

Lemma omap_concat {X Y} (f : X -> option Y) (l : list X) :
  omap f l = concat (map (fun x => option_list (f x)) l).
Proof.
  induction l as [|x l IH]; [reflexivity|].
  rewrite omap_cons, IH. simpl. by destruct (f x).
Qed.

(** C5.  With a detected header, each later line contributes to the result,
    in order, either nothing or its record; a line that is not blank
    contributes its record if and only if it has as many tokens as the header
    row and its Symbol is not empty; any other line contributes nothing, and
    nothing is thrown. *)
Theorem row_kept_iff_well_formed (csvText : jstring) (i : nat) (hl : jstring) (c : console) :
  DetectedHeader csvText i hl ->
  exists c' contributions,
    parseCsv csvText c = (c', Returned (concat contributions)) /\
    Forall2
      (fun l rs =>
         (rs = [] \/ rs = [recordOf (headerRow hl) l]) /\
         (trim l = [] -> rs = []) /\
         (trim l <> [] ->
            rs <> [] <->
            length (tokenize (trim l)) = length (headerRow hl) /\
            exists s, columnText "Symbol" (headerRow hl) (tokenize (trim l)) = Some s
                      /\ s <> []))
      (drop (S i) (split LF csvText)) contributions.
Proof.
  intros [Hl Hd]%detected_headerLine.
  destruct (parseCsv_header csvText hl c Hl) as [evs Hevs].
  rewrite Hd, omap_concat in Hevs.
  eexists _, _. split; [exact Hevs|].
  apply Forall2_fmap_r, Forall_Forall2_diag, Forall_forall. intros l _.
  unfold compose. rewrite rowOf_qualifies.
  destruct (qualifies (headerRow hl) l) eqn:Hq; simpl.
  - apply qualifies_Qualifies in Hq as (Hnb & Hlen & Hsym).
    split; [by right|]. split; [done|]. intros _. split; [done|]. intros _ [=].
  - split; [by left|]. split; [done|]. intros Hnb. split; [done|].
    intros [Hlen Hsym]. assert (Qualifies (headerRow hl) l) as HQ by done.
    apply qualifies_Qualifies in HQ. congruence.
Qed.

Lemma row_kept_iff_well_formed_witness :
  DetectedHeader mixedRowsText 0 "Symbol,Name,Price" /\
  exists c' contributions,
    parseCsv mixedRowsText [] = (c', Returned (concat contributions)) /\
    Forall2
      (fun l rs =>
         (rs = [] \/ rs = [recordOf (headerRow "Symbol,Name,Price") l]) /\
         (trim l = [] -> rs = []) /\
         (trim l <> [] ->
            rs <> [] <->
            length (tokenize (trim l)) = length (headerRow "Symbol,Name,Price") /\
            exists s, columnText "Symbol" (headerRow "Symbol,Name,Price")
                        (tokenize (trim l)) = Some s
                      /\ s <> []))
      (drop 1 (split LF mixedRowsText)) contributions.
Proof.
  assert (DetectedHeader mixedRowsText 0 "Symbol,Name,Price") as Hd.
  { apply detected_headerIndex. split; vm_compute; reflexivity. }
  split; [exact Hd|].
  exact (row_kept_iff_well_formed mixedRowsText 0 "Symbol,Name,Price" [] Hd).
Defined.

(** The Symbol of a row is the field of that exact name: a header line that
    is detected through another spelling names no such field, and every row
    under it is dropped for its missing Symbol. *)
Example other_spelling_drops_rows :
  DetectedHeader (unlines [js "Ticker symbol,Name"; js "AAA,Foo"]) 0 "Ticker symbol,Name" /\
  parse (unlines [js "Ticker symbol,Name"; js "AAA,Foo"]) = [] /\
  (parseCsv (unlines [js "Ticker symbol,Name"; js "AAA,Foo"]) []).1
  = [LogHeaders [js "Ticker_symbol"; js "Name"];
     WarnMissingSymbol 2 "AAA,Foo"; LogDataSize 0; WarnNoData].
Proof.
  split; [apply detected_headerIndex; split; vm_compute; reflexivity|].
  split; vm_compute; reflexivity.
Qed.

(** C6.  A comma inside a quoted field is kept: for the text whose header
    line is [Symbol,Name,Price] and whose one data line is
    ["AAA","Foo, Inc.",100], [parseCsv] returns exactly one record, and its
    Name is the string [Foo, Inc.]. *)
Theorem quoted_comma_preserved (c : console) :
  split LF quotedCommaText = [js "Symbol,Name,Price"; quotedCommaLine] /\
  tokenize quotedCommaLine = [js "AAA"; js "Foo, Inc."; js "100"] /\
  exists c' r,
    parseCsv quotedCommaText c = (c', Returned [r]) /\
    r !! js "Name" = Some (VString "Foo, Inc.") /\
    r = <[js "Symbol" := VString "AAA"]>
          (<[js "Name" := VString "Foo, Inc."]>
             (<[js "Price" := VString "100"]> ∅)).
Proof.
  split; [vm_compute; reflexivity|]. split; [vm_compute; reflexivity|].
  destruct (parseCsv_returns quotedCommaText c) as [evs Hevs].
  assert (parse quotedCommaText
          = [<[js "Symbol" := VString "AAA"]>
               (<[js "Name" := VString "Foo, Inc."]>
                  (<[js "Price" := VString "100"]> (∅ : record)))]) as Hparse
    by (vm_compute; reflexivity).
  rewrite Hparse in Hevs.
  eexists _, _. split; [exact Hevs|].
  split; [vm_compute|]; reflexivity.
Qed.

(** C7.  The header line is the first line that is not blank and whose first
    comma-separated token that is not blank contains "symbol" whatever the
    case: the header row is taken from that line and the records from the
    lines after it.  When no line of the text is such a line, [parseCsv]
    returns the empty sequence.  A token such as [Ticker Symbol Code]
    qualifies; a line whose first token lacks the word does not. *)
Theorem header_is_first_symbol_line (csvText : jstring) (c : console) :
  (forall i hl, DetectedHeader csvText i hl ->
     exists evs, parseCsv csvText c
       = (c ++ LogHeaders (headerRow hl) :: evs,
          Returned (map (recordOf (headerRow hl))
                      (filter (Qualifies (headerRow hl))
                         (drop (S i) (split LF csvText)))))) /\
  ((forall l, l ∈ split LF csvText -> ~ HeaderLine l) ->
     parseCsv csvText c = (c ++ [WarnNoHeader], Returned [])) /\
  HeaderLine "Ticker Symbol Code,Price" /\
  HeaderLine " , ,sYmBoL" /\
  ~ HeaderLine "Name,Symbol".
Proof.
  split; [|split; [|split; [|split]]].
  - intros i hl Hd. by apply parseCsv_detected.
  - intros Hnone. apply parseCsv_no_header. unfold headerLine.
    by rewrite (headerIndex_None _ Hnone).
  - apply isHeaderLine_HeaderLine. vm_compute. reflexivity.
  - apply isHeaderLine_HeaderLine. vm_compute. reflexivity.
  - intros H%isHeaderLine_HeaderLine. vm_compute in H. discriminate.
Qed.

Lemma header_is_first_symbol_line_witness :
  (DetectedHeader mixedRowsText 0 "Symbol,Name,Price" /\
   exists evs, parseCsv mixedRowsText []
     = ([] ++ LogHeaders (headerRow "Symbol,Name,Price") :: evs,
        Returned (map (recordOf (headerRow "Symbol,Name,Price"))
                    (filter (Qualifies (headerRow "Symbol,Name,Price"))
                       (drop 1 (split LF mixedRowsText)))))) /\
  ((forall l, l ∈ split LF "Name,Symbol" -> ~ HeaderLine l) /\
   parseCsv "Name,Symbol" [] = ([] ++ [WarnNoHeader], Returned [])).
Proof.
  assert (DetectedHeader mixedRowsText 0 "Symbol,Name,Price") as Hd.
  { apply detected_headerIndex. split; vm_compute; reflexivity. }
  assert (forall l, l ∈ split LF "Name,Symbol" -> ~ HeaderLine l) as Hnone.
  { intros l Hl. vm_compute in Hl. apply list_elem_of_singleton in Hl as ->.
    intros H%isHeaderLine_HeaderLine. vm_compute in H. discriminate. }
  split; split.
  - exact Hd.
  - exact (proj1 (header_is_first_symbol_line mixedRowsText []) 0 _ Hd).
  - exact Hnone.
  - exact (proj1 (proj2 (header_is_first_symbol_line "Name,Symbol" [])) Hnone).
Defined.

(** C8.  Each entry of the header row comes from its comma-separated token
    of the header line by trimming white space, stripping one leading and one
    trailing double quote if present, and replacing every space by an
    underscore; the quoted token ["Current price"] gives [Current_price]. *)
Theorem header_row_normalized (csvText : jstring) (i : nat) (hl : jstring) (c : console) :
  DetectedHeader csvText i hl ->
  (exists evs data, parseCsv csvText c
     = (c ++ LogHeaders (map normalizeToken (split comma (trim hl))) :: evs,
        Returned data)) /\
  (forall token, normalizeHeader token = normalizeToken token) /\
  normalizeToken (quoted "Current price") = js "Current_price".
Proof.
  intros Hd. split; [|split].
  - destruct (parseCsv_detected csvText i hl c Hd) as [evs Hevs].
    exists evs. eexists. rewrite Hevs. unfold headerRow.
    by rewrite (map_ext _ _ normalizeHeader_normalizeToken).
  - apply normalizeHeader_normalizeToken.
  - vm_compute. reflexivity.
Qed.

Lemma header_row_normalized_witness :
  DetectedHeader mixedRowsText 0 "Symbol,Name,Price" /\
  (exists evs data, parseCsv mixedRowsText []
     = ([] ++ LogHeaders (map normalizeToken (split comma (trim "Symbol,Name,Price"))) :: evs,
        Returned data)) /\
  (forall token, normalizeHeader token = normalizeToken token) /\
  normalizeToken (quoted "Current price") = js "Current_price".
Proof.
  assert (DetectedHeader mixedRowsText 0 "Symbol,Name,Price") as Hd.
  { apply detected_headerIndex. split; vm_compute; reflexivity. }
  split; [exact Hd|].
  exact (header_row_normalized mixedRowsText 0 "Symbol,Name,Price" [] Hd).
Defined.

(** C10.  No string field of an emitted record contains a double quote: the
    scanner uses every double quote to toggle its flag and stores none, so
    stripping quotes from a token afterwards changes nothing. *)
Theorem no_quote_in_string_fields (csvText : jstring) (c c' : console)
    (data : list record) (r : record) (k s : jstring) :
  parseCsv csvText c = (c', Returned data) ->
  r ∈ data ->
  r !! k = Some (VString s) ->
  (dquote ∉ s) /\
  forall line v, v ∈ tokenize line -> (dquote ∉ v) /\ replaceEdgeQuotes v = v.
Proof.
  intros Hrun Hr Hk. split.
  - rewrite (parseCsv_data _ _ _ _ Hrun) in Hr.
    apply parse_emitted in Hr as (i & hl & l & _ & _ & _ & ->).
    unfold recordOf in Hk. rewrite buildRow_lookup in Hk.
    destruct (bool_decide (k = js "__proto__")); [done|].
    destruct (columnText k _ _) as [v|] eqn:Hv; [|done].
    simpl in Hk. injection Hk as Hk. apply coerce_VString in Hk as ->.
    apply columnText_quoteFree in Hv. by rewrite replaceEdgeQuotes_id.
  - intros line v Hv. pose proof (tokenize_quoteFree line) as Hq.
    rewrite Forall_forall in Hq. split; [by apply Hq|].
    apply replaceEdgeQuotes_id. by apply Hq.
Qed.

Lemma no_quote_in_string_fields_witness :
  (dquote ∉ js "Foo, Inc.") /\
  forall line v, v ∈ tokenize line -> (dquote ∉ v) /\ replaceEdgeQuotes v = v.
Proof.
  apply (no_quote_in_string_fields quotedCommaText []
           (parseCsv quotedCommaText []).1 (parse quotedCommaText)
           (<[js "Symbol" := VString "AAA"]>
              (<[js "Name" := VString "Foo, Inc."]>
                 (<[js "Price" := VString "100"]> ∅)))
           "Name" "Foo, Inc.").
  - vm_compute. reflexivity.
  - vm_compute. left.
  - vm_compute. reflexivity.
Defined.

(** C2, as stated, fails on the code: the text [1,234.56] in the column
    [Percent_change] is parsed with its comma and is stored as the number 1,
    not as the number 1234.56 that stripping the comma first gives. *)
Lemma numeric_fields_counterexample :
  DetectedHeader thousandsText 0 "Symbol,Volume,Percent_change" /\
  split LF thousandsText = [js "Symbol,Volume,Percent_change"; thousandsLine] /\
  tokenize (trim thousandsLine) = [js "AAA"; js "1,234.56"; js "1,234.56"] /\
  exists c' r,
    parseCsv thousandsText [] = (c', Returned [r]) /\
    r !! js "Percent_change" = Some (VNumber n1) /\
    orZero (parseFloat (removeCommas "1,234.56")) = n1234_56 /\
    r !! js "Percent_change"
      <> Some (VNumber (orZero (parseFloat (removeCommas "1,234.56")))).
Proof.
  split; [apply detected_headerIndex; split; vm_compute; reflexivity|].
  split; [vm_compute; reflexivity|]. split; [vm_compute; reflexivity|].
  destruct (parseCsv_returns thousandsText []) as [evs Hevs].
  assert (parse thousandsText
          = [<[js "Symbol" := VString "AAA"]>
               (<[js "Volume" := VNumber n1234_56]>
                  (<[js "Percent_change" := VNumber n1]> (∅ : record)))]) as Hparse
    by (vm_compute; reflexivity).
  rewrite Hparse in Hevs.
  eexists _, _. split; [exact Hevs|].
  split; [vm_compute; reflexivity|]. split; [vm_compute; reflexivity|].
  vm_compute. discriminate.
Qed.

(** C2, amended.  Every emitted record is the record of a line after the
    detected header, and for each column name [h] with field text [text]
    (the text of the last column of that name): when [h] is one of
    Current_price, Price_change, Liquidity and Volume, the stored value is
    the number parsed from [text] with its commas stripped, or zero when
    parsing fails; when [h] is Percent_change, it is the number parsed from
    [text] as it stands, or zero when parsing fails.  The text [1,234.56]
    gives 1234.56 in the first four and 1 in Percent_change. *)
Theorem numeric_fields_coerced (csvText : jstring) (c c' : console)
    (data : list record) (r : record) :
  parseCsv csvText c = (c', Returned data) ->
  r ∈ data ->
  (exists i hl l,
     DetectedHeader csvText i hl /\
     l ∈ drop (S i) (split LF csvText) /\
     r = recordOf (headerRow hl) l /\
     forall h text,
       columnText h (headerRow hl) (tokenize (trim l)) = Some text ->
       (h ∈ [js "Current_price"; js "Price_change"; js "Liquidity"; js "Volume"] ->
        r !! h = Some (VNumber (orZero (parseFloat (removeCommas text))))) /\
       (h = js "Percent_change" ->
        r !! h = Some (VNumber (orZero (parseFloat text))))) /\
  orZero (parseFloat (removeCommas "1,234.56")) = n1234_56 /\
  orZero (parseFloat "1,234.56") = n1 /\
  orZero (parseFloat (removeCommas "abc")) = zero.
Proof.
  intros Hrun Hr. split; [|repeat split; vm_compute; reflexivity].
  rewrite (parseCsv_data _ _ _ _ Hrun) in Hr.
  apply parse_emitted in Hr as (i & hl & l & Hd & Hl & _ & ->).
  exists i, hl, l. split; [done|]. split; [done|]. split; [done|].
  intros h text Htext.
  pose proof (replaceEdgeQuotes_id text (columnText_quoteFree _ _ _ _ Htext)) as Hid.
  unfold recordOf. rewrite buildRow_lookup, Htext. simpl. split.
  - intros Hh.
    assert (isPriceOrVolume h = true) as Hpv.
    { repeat (apply elem_of_cons in Hh as [->|Hh]; [reflexivity|]).
      by apply elem_of_nil in Hh. }
    rewrite (coerce_priceOrVolume _ _ Hpv), Hid.
    destruct (bool_decide_reflect (h = js "__proto__")) as [->|]; [|done].
    vm_compute in Hpv. done.
  - intros ->. by rewrite coerce_percent, Hid.
Qed.

Lemma numeric_fields_coerced_witness :
  (exists i hl l,
     DetectedHeader thousandsText i hl /\
     l ∈ drop (S i) (split LF thousandsText) /\
     <[js "Symbol" := VString "AAA"]>
       (<[js "Volume" := VNumber n1234_56]>
          (<[js "Percent_change" := VNumber n1]> (∅ : record)))
     = recordOf (headerRow hl) l /\
     forall h text,
       columnText h (headerRow hl) (tokenize (trim l)) = Some text ->
       (h ∈ [js "Current_price"; js "Price_change"; js "Liquidity"; js "Volume"] ->
        <[js "Symbol" := VString "AAA"]>
          (<[js "Volume" := VNumber n1234_56]>
             (<[js "Percent_change" := VNumber n1]> (∅ : record))) !! h
        = Some (VNumber (orZero (parseFloat (removeCommas text))))) /\
       (h = js "Percent_change" ->
        <[js "Symbol" := VString "AAA"]>
          (<[js "Volume" := VNumber n1234_56]>
             (<[js "Percent_change" := VNumber n1]> (∅ : record))) !! h
        = Some (VNumber (orZero (parseFloat text))))) /\
  orZero (parseFloat (removeCommas "1,234.56")) = n1234_56 /\
  orZero (parseFloat "1,234.56") = n1 /\
  orZero (parseFloat (removeCommas "abc")) = zero.
Proof.
  apply (numeric_fields_coerced thousandsText []
           (parseCsv thousandsText []).1 (parse thousandsText)).
  - vm_compute. reflexivity.
  - vm_compute. left.
Defined.

(** C3, as stated, fails on the code: with the header [Symbol,Name,Name] the
    header row has three entries and the emitted record two fields, the
    second [Name] column overwriting the first. *)
Lemma record_fields_counterexample :
  DetectedHeader duplicateNameText 0 "Symbol,Name,Name" /\
  headerRow "Symbol,Name,Name" = [js "Symbol"; js "Name"; js "Name"] /\
  exists c' r,
    parseCsv duplicateNameText [] = (c', Returned [r]) /\
    r = <[js "Symbol" := VString "AAA"]> (<[js "Name" := VString "y"]> ∅) /\
    size r = 2 /\
    size r <> length (headerRow "Symbol,Name,Name").
Proof.
  split; [apply detected_headerIndex; split; vm_compute; reflexivity|].
  split; [vm_compute; reflexivity|].
  destruct (parseCsv_returns duplicateNameText []) as [evs Hevs].
  assert (parse duplicateNameText
          = [<[js "Symbol" := VString "AAA"]>
               (<[js "Name" := VString "y"]> (∅ : record))]) as Hparse
    by (vm_compute; reflexivity).
  rewrite Hparse in Hevs.
  eexists _, _. split; [exact Hevs|]. split; [reflexivity|].
  split; [vm_compute; reflexivity|]. vm_compute. discriminate.
Qed.

(** C3, amended.  Every emitted record has a Symbol that is a string and
    not empty; and, when no entry of the header row is the name [__proto__],
    its field names are exactly the names in the header row, one field for
    each distinct name: exactly as many fields as the header row has entries
    when no two entries are the same name, and fewer fields than entries
    when a name is repeated. *)
Theorem record_fields (csvText : jstring) (c c' : console)
    (data : list record) (r : record) :
  parseCsv csvText c = (c', Returned data) ->
  r ∈ data ->
  exists i hl,
    DetectedHeader csvText i hl /\
    (exists s, r !! js "Symbol" = Some (VString s) /\ s <> []) /\
    (js "__proto__" ∉ headerRow hl ->
     dom r = list_to_set (headerRow hl) /\
     size r = length (remove_dups (headerRow hl)) /\
     (NoDup (headerRow hl) -> size r = length (headerRow hl)) /\
     (~ NoDup (headerRow hl) -> size r < length (headerRow hl))).
Proof.
  intros Hrun Hr. rewrite (parseCsv_data _ _ _ _ Hrun) in Hr.
  apply parse_emitted in Hr as (i & hl & l & Hd & _ & (Hnb & Hlen & s & Hs & Hne) & ->).
  exists i, hl. split; [done|]. unfold recordOf. split.
  - exists s. split; [|done]. rewrite buildRow_lookup, Hs.
    rewrite (bool_decide_eq_false_2 (js "Symbol" = js "__proto__")) by done.
    change (coerce (js "Symbol") <$> Some s) with (Some (VString (replaceEdgeQuotes s))).
    by rewrite (replaceEdgeQuotes_id s (columnText_quoteFree _ _ _ _ Hs)).
  - intros Hproto.
    destruct (buildRow_fields _ _ Hlen Hproto) as [Hdom Hsize].
    split; [done|]. split; [done|]. rewrite Hsize. split.
    + intros Hnd. by rewrite remove_dups_NoDup.
    + apply length_remove_dups_lt.
Qed.

Lemma record_fields_witness :
  exists i hl,
    DetectedHeader quotedCommaText i hl /\
    (exists s,
      <[js "Symbol" := VString "AAA"]>
        (<[js "Name" := VString "Foo, Inc."]>
           (<[js "Price" := VString "100"]> (∅ : record))) !! js "Symbol"
      = Some (VString s) /\ s <> []) /\
    (js "__proto__" ∉ headerRow hl ->
     dom (<[js "Symbol" := VString "AAA"]>
            (<[js "Name" := VString "Foo, Inc."]>
               (<[js "Price" := VString "100"]> (∅ : record))))
     = list_to_set (headerRow hl) /\
     size (<[js "Symbol" := VString "AAA"]>
             (<[js "Name" := VString "Foo, Inc."]>
                (<[js "Price" := VString "100"]> (∅ : record))))
     = length (remove_dups (headerRow hl)) /\
     (NoDup (headerRow hl) ->
      size (<[js "Symbol" := VString "AAA"]>
              (<[js "Name" := VString "Foo, Inc."]>
                 (<[js "Price" := VString "100"]> (∅ : record))))
      = length (headerRow hl)) /\
     (~ NoDup (headerRow hl) ->
      size (<[js "Symbol" := VString "AAA"]>
              (<[js "Name" := VString "Foo, Inc."]>
                 (<[js "Price" := VString "100"]> (∅ : record))))
      < length (headerRow hl))).
Proof.
  apply (record_fields quotedCommaText []
           (parseCsv quotedCommaText []).1 (parse quotedCommaText)).
  - vm_compute. reflexivity.
  - vm_compute. left.
Defined.

(** The name [__proto__] in the header row: assigning a string to it sets
    no field, and the record has one field for the two names. *)
Lemma proto_name_sets_no_field :
  DetectedHeader protoNameText 0 "Symbol,__proto__" /\
  headerRow "Symbol,__proto__" = [js "Symbol"; js "__proto__"] /\
  exists c',
    parseCsv protoNameText []
    = (c', Returned [<[js "Symbol" := VString "AAA"]> (∅ : record)]).
Proof.
  split; [apply detected_headerIndex; split; vm_compute; reflexivity|].
  split; [vm_compute; reflexivity|].
  destruct (parseCsv_returns protoNameText []) as [evs Hevs].
  assert (parse protoNameText = [<[js "Symbol" := VString "AAA"]> (∅ : record)])
    as Hparse by (vm_compute; reflexivity).
  rewrite Hparse in Hevs. eexists. exact Hevs.
Qed.

(** * Further properties of the parser and of its caller *)

(** ** White space and lines *)

Lemma trimStart_app (s k : jstring) :
  trimStart (s ++ k) = match trimStart s with [] => trimStart k | _ => trimStart s ++ k end.
Proof.
  induction s as [|c s IH]; simpl; [by destruct (trimStart k)|].
  destruct (isWhiteSpace c); [exact IH | reflexivity].
Qed.

Lemma trimStart_idem (s : jstring) : trimStart (trimStart s) = trimStart s.
Proof.
  induction s as [|c s IH]; simpl; [reflexivity|].
  destruct (isWhiteSpace c) eqn:Hc; [exact IH|]. simpl. by rewrite Hc.
Qed.

(** A white space character at the end of a string is trimmed away. *)
Lemma trim_snoc (s : jstring) (w : ascii) :
  isWhiteSpace w = true -> trim (s ++ [w]) = trim s.
Proof.
  intros Hw. unfold trim, trimEnd. f_equal.
  rewrite trimStart_app. destruct (trimStart s) as [|c s'] eqn:Hs.
  - simpl. by rewrite Hw.
  - rewrite List.rev_app_distr. simpl. by rewrite Hw.
Qed.

Lemma trimStart_blank (s : jstring) :
  trimStart s = [] <-> Forall (fun c => isWhiteSpace c = true) s.
Proof.
  induction s as [|c s IH]; simpl; [done|].
  destruct (isWhiteSpace c) eqn:Hc.
  - rewrite IH. split; [by constructor | by inversion 1].
  - split; [done | inversion 1; congruence].
Qed.

Lemma trim_blank (s : jstring) :
  trim s = [] <-> Forall (fun c => isWhiteSpace c = true) s.
Proof.
  rewrite <- trimStart_blank. unfold trim, trimEnd. split.
  - intros H. destruct (trimStart s) as [|c s'] eqn:Hs; [done|].
    apply (f_equal (@rev ascii)) in H. rewrite List.rev_involutive in H.
    change (@rev ascii []) with (@nil ascii) in H.
    apply trimStart_blank in H.
    assert (Forall (fun c => isWhiteSpace c = true) (c :: s')) as Hall.
    { apply Forall_forall. intros x Hx. rewrite Forall_forall in H. apply H.
      apply list_elem_of_In. apply -> in_rev. by apply list_elem_of_In. }
    apply trimStart_blank in Hall. rewrite <- Hs, trimStart_idem, Hs in Hall. done.
  - intros ->. reflexivity.
Qed.

Lemma trimStart_fixed (s : jstring) :
  match s with [] => True | c :: _ => isWhiteSpace c = false end -> trimStart s = s.
Proof. destruct s as [|c s]; simpl; [done|]. by intros ->. Qed.

Lemma trimStart_head (s : jstring) :
  match trimStart s with [] => True | c :: _ => isWhiteSpace c = false end.
Proof.
  induction s as [|c s IH]; simpl; [done|].
  destruct (isWhiteSpace c) eqn:Hc; [exact IH | exact Hc].
Qed.

(** [trim] leaves a trimmed string as it is. *)
Lemma trim_idem (s : jstring) : trim (trim s) = trim s.
Proof.
  assert (forall u : jstring,
            match u with [] => True | c :: _ => isWhiteSpace c = false end ->
            trimStart (trimEnd u) = trimEnd u) as Hkeep.
  { intros u Hu. apply trimStart_fixed. unfold trimEnd.
    destruct (trimStart_suffix (rev u)) as [pre Hpre].
    apply (f_equal (@rev ascii)) in Hpre.
    rewrite List.rev_involutive, List.rev_app_distr in Hpre.
    destruct (rev (trimStart (rev u))) as [|c r]; [done|].
    rewrite Hpre in Hu. exact Hu. }
  unfold trim. rewrite (Hkeep (trimStart s) (trimStart_head s)).
  unfold trimEnd. rewrite List.rev_involutive, trimStart_idem. reflexivity.
Qed.

Lemma split_nonempty (sep : ascii) (s : jstring) : split sep s <> [].
Proof.
  induction s as [|c s IH]; simpl; [done|].
  destruct (Ascii.eqb c sep); [done|]. by destruct (split sep s).
Qed.

Lemma split_cons_ne (sep c : ascii) (s : jstring) :
  c <> sep ->
  exists t ts, split sep s = t :: ts /\ split sep (c :: s) = (c :: t) :: ts.
Proof.
  intros Hc. simpl. destruct (Ascii.eqb_spec c sep) as [|_]; [done|].
  pose proof (split_nonempty sep s) as Hne.
  destruct (split sep s) as [|t ts]; [done|]. eauto.
Qed.

(** Splitting at a separator splits the two sides. *)
Lemma split_app (sep : ascii) (a b : jstring) :
  split sep (a ++ sep :: b) = split sep a ++ split sep b.
Proof.
  induction a as [|c a IH]; simpl.
  - by rewrite Ascii.eqb_refl.
  - rewrite IH. destruct (Ascii.eqb c sep); [reflexivity|].
    pose proof (split_nonempty sep a) as Hne.
    by destruct (split sep a).
Qed.

Lemma split_no_sep (sep : ascii) (s : jstring) : sep ∉ s -> split sep s = [s].
Proof.
  induction s as [|c s IH]; [done|].
  intros [Hc Hs]%not_elem_of_cons. simpl.
  destruct (Ascii.eqb_spec c sep) as [->|_]; [done|]. by rewrite IH.
Qed.

(** A character that is not the separator extends the last piece. *)
Lemma split_snoc (sep c : ascii) (a : jstring) :
  c <> sep ->
  exists front l, split sep a = front ++ [l] /\ split sep (a ++ [c]) = front ++ [l ++ [c]].
Proof.
  intros Hc. induction a as [|d a (front & l & Ha & Hac)].
  - exists [], []. simpl. by destruct (Ascii.eqb_spec c sep).
  - simpl. rewrite Ha, Hac. destruct (Ascii.eqb d sep).
    + exists ([] :: front), l. done.
    + destruct front as [|f front]; simpl.
      * exists [], (d :: l). done.
      * exists ((d :: f) :: front), l. done.
Qed.

Lemma length_split (sep : ascii) (s : jstring) :
  length (split sep s) = S (length (List.filter (Ascii.eqb sep) s)).
Proof.
  induction s as [|c s IH]; simpl; [reflexivity|].
  rewrite (Ascii.eqb_sym sep c). destruct (Ascii.eqb c sep); simpl; [by rewrite IH|].
  pose proof (split_nonempty sep s) as Hne.
  destruct (split sep s); [done|]. exact IH.
Qed.

(** ** The text as lines *)

Lemma isHeaderLine_trim (l l' : jstring) :
  trim l = trim l' -> isHeaderLine l = isHeaderLine l'.
Proof. unfold isHeaderLine. by intros ->. Qed.

Lemma headerRow_trim (l l' : jstring) : trim l = trim l' -> headerRow l = headerRow l'.
Proof. unfold headerRow. by intros ->. Qed.

Lemma rowOf_trim (headers : list jstring) (l l' : jstring) :
  trim l = trim l' -> rowOf headers l = rowOf headers l'.
Proof. unfold rowOf. by intros ->. Qed.

Lemma headerIndexFrom_trim (ls ls' : list jstring) :
  Forall2 (fun l l' => trim l = trim l') ls ls' ->
  forall i, headerIndexFrom i ls = headerIndexFrom i ls'.
Proof.
  induction 1 as [|l l' ls ls' Hl _ IH]; intros i; simpl; [reflexivity|].
  rewrite (isHeaderLine_trim _ _ Hl), IH. reflexivity.
Qed.

Lemma omap_rowOf_trim (headers : list jstring) (ls ls' : list jstring) :
  Forall2 (fun l l' => trim l = trim l') ls ls' ->
  omap (rowOf headers) ls = omap (rowOf headers) ls'.
Proof.
  induction 1 as [|l l' ls ls' Hl _ IH]; [reflexivity|].
  rewrite !omap_cons, (rowOf_trim _ _ _ Hl), IH. reflexivity.
Qed.

(** [parse] sees each line through [trim] only. *)
Lemma parse_lines_trim (t t' : jstring) :
  Forall2 (fun l l' => trim l = trim l') (split LF t) (split LF t') ->
  parse t = parse t'.
Proof.
  intros Hls. unfold parse, headerIndex.
  rewrite (headerIndexFrom_trim _ _ Hls 0).
  destruct (headerIndexFrom 0 (split LF t')) as [i|]; [|reflexivity].
  destruct (split LF t !! i) as [l|] eqn:Hl.
  - destruct (Forall2_lookup_l _ _ _ _ _ Hls Hl) as (l' & Hl' & Htrim).
    rewrite Hl', (headerRow_trim _ _ Htrim).
    apply omap_rowOf_trim. by apply Forall2_drop.
  - apply lookup_ge_None in Hl. rewrite (Forall2_length _ _ _ Hls) in Hl.
    apply lookup_ge_None in Hl. by rewrite Hl.
Qed.

Lemma headerIndexFrom_S (ls : list jstring) (i : nat) :
  headerIndexFrom (S i) ls = S <$> headerIndexFrom i ls.
Proof.
  revert i. induction ls as [|l ls IH]; intros i; simpl; [reflexivity|].
  destruct (isHeaderLine l); [reflexivity | apply IH].
Qed.

(** A first line that is not a header line is passed over. *)
Lemma parse_skip_line (p t : jstring) :
  LF ∉ p -> isHeaderLine p = false -> parse (p ++ LF :: t) = parse t.
Proof.
  intros Hp Hh. unfold parse, headerIndex.
  rewrite split_app, (split_no_sep _ _ Hp). simpl. rewrite Hh, headerIndexFrom_S.
  destruct (headerIndexFrom 0 (split LF t)) as [i|]; reflexivity.
Qed.

Lemma elem_of_split (sep : ascii) (s l : jstring) (x : ascii) :
  l ∈ split sep s -> x ∈ l -> x ∈ s.
Proof.
  revert l. induction s as [|c s IH]; intros l; simpl.
  - intros ->%list_elem_of_singleton Hx. by apply elem_of_nil in Hx.
  - destruct (Ascii.eqb c sep).
    + intros [->|Hl]%elem_of_cons Hx; [by apply elem_of_nil in Hx|].
      right. by apply (IH l).
    + pose proof (split_nonempty sep s) as Hne.
      destruct (split sep s) as [|t ts]; [done|].
      intros [->|Hl]%elem_of_cons Hx.
      * apply elem_of_cons in Hx as [->|Hx]; [left|right].
        apply (IH t); [left | done].
      * right. apply (IH l); [by right | done].
Qed.

Lemma isHeaderLine_blank (l : jstring) : trim l = [] -> isHeaderLine l = false.
Proof. unfold isHeaderLine. by intros ->. Qed.

Lemma headerIndexFrom_none (ls : list jstring) (i : nat) :
  Forall (fun l => isHeaderLine l = false) ls -> headerIndexFrom i ls = None.
Proof.
  intros H. revert i. induction H as [|l ls Hl _ IH]; intros i; simpl; [reflexivity|].
  rewrite Hl. apply IH.
Qed.

Lemma headerLine_blank (csvText : jstring) : trim csvText = [] -> headerLine csvText = None.
Proof.
  intros Hblank. unfold headerLine, headerIndex.
  rewrite headerIndexFrom_none; [reflexivity|].
  apply Forall_forall. intros l Hl. apply isHeaderLine_blank, trim_blank.
  apply trim_blank in Hblank. rewrite Forall_forall in Hblank.
  apply Forall_forall. intros x Hx. apply Hblank. by apply (elem_of_split LF _ l).
Qed.

Lemma parse_blank (csvText : jstring) : trim csvText = [] -> parse csvText = [].
Proof. intros H. by apply parse_no_header, headerLine_blank. Qed.

Lemma length_omap_le {X Y} (f : X -> option Y) (l : list X) :
  length (omap f l) <= length l.
Proof.
  induction l as [|x l IH]; [done|]. rewrite omap_cons. simpl.
  destruct (f x); simpl; lia.
Qed.

Lemma parse_length_le (t : jstring) :
  length (parse t) <= length (List.filter (Ascii.eqb LF) t).
Proof.
  pose proof (length_split LF t) as Hlen. unfold parse.
  destruct (headerIndex (split LF t)) as [i|] eqn:Hi; [|simpl; lia].
  apply headerIndex_lt in Hi.
  destruct (split LF t !! i) as [l|]; [|simpl; lia].
  pose proof (length_omap_le (rowOf (headerRow l)) (drop (S i) (split LF t))) as Hle.
  rewrite length_drop in Hle. lia.
Qed.

(** ** The scanner *)

Lemma scan_app (a b : jstring) st :
  fold_left scanChar (a ++ b) st = fold_left scanChar b (fold_left scanChar a st).
Proof. apply fold_left_app. Qed.

(** Outside quotes, a text without double quotes is split at its commas. *)
Lemma scan_plain (line : jstring) :
  dquote ∉ line ->
  forall vals cur, comma ∉ cur ->
    exists vals' cur',
      fold_left scanChar line (vals, cur, false) = (vals', cur', false) /\
      vals' ++ [trim cur'] = vals ++ map trim (split comma (cur ++ line)).
Proof.
  induction line as [|c line IH]; intros Hq vals cur Hcur.
  - exists vals, cur. split; [reflexivity|].
    by rewrite app_nil_r, (split_no_sep _ _ Hcur).
  - apply not_elem_of_cons in Hq as [Hc Hline]. simpl.
    destruct (Ascii.eqb_spec c dquote) as [->|_]; [done|].
    destruct (Ascii.eqb_spec c comma) as [->|Hcomma]; simpl.
    + destruct (IH Hline (vals ++ [trim cur]) []) as (vals' & cur' & Hfold & Htok);
        [apply not_elem_of_nil|].
      exists vals', cur'. split; [exact Hfold|].
      rewrite Htok, split_app, (split_no_sep _ _ Hcur). simpl.
      by rewrite <- app_assoc.
    + destruct (IH Hline vals (cur ++ [c])) as (vals' & cur' & Hfold & Htok).
      { rewrite elem_of_app, list_elem_of_singleton. intros [?|?]; [done|].
        by apply Hcomma. }
      exists vals', cur'. split; [exact Hfold|].
      by rewrite Htok, <- app_assoc.
Qed.

(** Inside quotes, a text without double quotes is stored as it is. *)
Lemma scan_inside (s : jstring) :
  dquote ∉ s ->
  forall vals cur, fold_left scanChar s (vals, cur, true) = (vals, cur ++ s, true).
Proof.
  induction s as [|c s IH]; intros Hq vals cur; simpl.
  - by rewrite app_nil_r.
  - apply not_elem_of_cons in Hq as [Hc Hs].
    destruct (Ascii.eqb_spec c dquote) as [->|_]; [done|].
    rewrite andb_false_r, (IH Hs), <- app_assoc. reflexivity.
Qed.

Lemma scan_quoted (s : jstring) (vals : list jstring) (cur : jstring) :
  dquote ∉ s ->
  fold_left scanChar (quoted s) (vals, cur, false) = (vals, cur ++ s, false).
Proof.
  intros Hq. unfold quoted.
  change (dquote :: s ++ [dquote]) with ([dquote] ++ s ++ [dquote]).
  rewrite !scan_app. simpl. by rewrite (scan_inside _ Hq).
Qed.

Lemma scan_quoted_rest (fs : list jstring) :
  Forall (fun f => dquote ∉ f) fs ->
  forall vals cur,
    exists vals' cur',
      fold_left scanChar (concat (map (fun g => comma :: quoted g) fs)) (vals, cur, false)
      = (vals', cur', false) /\
      vals' ++ [trim cur'] = vals ++ trim cur :: map trim fs.
Proof.
  induction 1 as [|f fs Hf _ IH]; intros vals cur.
  - exists vals, cur. done.
  - change (concat (map (fun g => comma :: quoted g) (f :: fs)))
      with ((comma :: quoted f) ++ concat (map (fun g => comma :: quoted g) fs)).
    rewrite scan_app.
    change (fold_left scanChar (comma :: quoted f) (vals, cur, false))
      with (fold_left scanChar (quoted f) (vals ++ [trim cur], [], false)).
    rewrite (scan_quoted f _ _ Hf).
    destruct (IH (vals ++ [trim cur]) f) as (vals' & cur' & Hfold & Htok).
    exists vals', cur'. split; [exact Hfold|].
    by rewrite Htok, <- app_assoc.
Qed.

Lemma scan_trimmed (line : jstring) st :
  Forall (fun v => trim v = v) st.1.1 ->
  Forall (fun v => trim v = v) (fold_left scanChar line st).1.1.
Proof.
  revert st. induction line as [|c line IH]; intros st Hst; [done|].
  simpl. apply IH. destruct st as [[vals cur] q]. simpl in *.
  destruct (Ascii.eqb c dquote); [done|].
  destruct (Ascii.eqb c comma && negb q); simpl; [|done].
  apply Forall_app. split; [done|]. apply Forall_singleton, trim_idem.
Qed.

Lemma tokenize_trimmed (line : jstring) : Forall (fun v => trim v = v) (tokenize line).
Proof.
  unfold tokenize.
  pose proof (scan_trimmed line ([], [], false)) as H.
  destruct (fold_left scanChar line ([], [], false)) as [[vals cur] q].
  apply Forall_app. split; [apply H; constructor|].
  apply Forall_singleton, trim_idem.
Qed.

Lemma tokenize_nonempty (line : jstring) : tokenize line <> [].
Proof.
  unfold tokenize.
  destruct (fold_left scanChar line ([], [], false)) as [[vals cur] q].
  by destruct vals.
Qed.

Lemma tokenize_plain (line : jstring) :
  dquote ∉ line -> tokenize line = map trim (split comma line).
Proof.
  intros Hq. unfold tokenize.
  destruct (scan_plain line Hq [] []) as (vals & cur & Hfold & Htok);
    [apply not_elem_of_nil|].
  rewrite Hfold. exact Htok.
Qed.

Lemma quoted_rows_tokens (fields : list jstring) :
  fields <> [] ->
  Forall (fun f => dquote ∉ f) fields ->
  tokenize (quotedRow fields) = map trim fields.
Proof.
  intros Hne Hq. destruct fields as [|f fs]; [done|].
  apply Forall_cons in Hq as [Hf Hfs].
  unfold tokenize, quotedRow. rewrite scan_app, (scan_quoted f _ _ Hf).
  destruct (scan_quoted_rest fs Hfs [] ([] ++ f)) as (vals & cur & Hfold & Htok).
  rewrite Hfold. exact Htok.
Qed.

(** ** Properties of the scanner *)

(** X1.  On a line without double quotes the scanner of lines 105 to 117
    gives what [line.split(',')] followed by [trim] on each piece gives. *)
Theorem tokenize_unquoted_is_split (line : jstring) :
  dquote ∉ line -> tokenize line = map trim (split comma line).
Proof.
  apply tokenize_plain.
Qed.

Lemma tokenize_unquoted_is_split_witness :
  (dquote ∉ js " AAA , Foo,,100 ") /\
  tokenize " AAA , Foo,,100 " = map trim (split comma " AAA , Foo,,100 ").
Proof.
  assert (dquote ∉ js " AAA , Foo,,100 ") as Hq.
  { intros H. vm_compute in H.
    repeat (apply elem_of_cons in H as [H|H]; [discriminate H|]).
    by apply elem_of_nil in H. }
  split; [exact Hq|]. exact (tokenize_unquoted_is_split _ Hq).
Defined.

(** X2.  Writing fields in double quotes and scanning the row gives the
    fields back, trimmed, whatever commas they hold: the scanner undoes the
    quoting of any row of fields that hold no double quote. *)
Theorem quoted_row_round_trip (fields : list jstring) :
  fields <> [] ->
  Forall (fun f => dquote ∉ f) fields ->
  tokenize (quotedRow fields) = map trim fields.
Proof.
  apply quoted_rows_tokens.
Qed.

Lemma quoted_row_round_trip_witness :
  [js "AAA"; js "Foo, Inc."; js " 1,234.56 "] <> [] /\
  Forall (fun f => dquote ∉ f) [js "AAA"; js "Foo, Inc."; js " 1,234.56 "] /\
  tokenize (quotedRow [js "AAA"; js "Foo, Inc."; js " 1,234.56 "])
  = map trim [js "AAA"; js "Foo, Inc."; js " 1,234.56 "].
Proof.
  assert (Forall (fun f => dquote ∉ f) [js "AAA"; js "Foo, Inc."; js " 1,234.56 "]) as Hq.
  { repeat constructor; intros H; vm_compute in H;
      repeat (apply elem_of_cons in H as [H|H]; [discriminate H|]);
      by apply elem_of_nil in H. }
  split; [discriminate|]. split; [exact Hq|].
  apply quoted_row_round_trip; [discriminate | exact Hq].
Defined.

(** X3.  A double quote only toggles the scanner: two in a row, wherever
    they stand, leave no trace, so a doubled quote inside a quoted field is
    dropped and not kept as one quote. *)
Theorem doubled_quote_dropped (a b : jstring) :
  tokenize (a ++ dquote :: dquote :: b) = tokenize (a ++ b).
Proof.
  unfold tokenize. rewrite !scan_app.
  destruct (fold_left scanChar a ([], [], false)) as [[vals cur] q].
  simpl. by rewrite negb_involutive.
Qed.

(** X4.  After a double quote that is never closed no comma separates any
    more: the rest of the line, commas included, is added to the field in
    progress, and the row has as many fields as the part before the quote. *)
Theorem unmatched_quote_swallows_commas (s1 s2 : jstring) :
  dquote ∉ s1 -> dquote ∉ s2 ->
  exists vals cur,
    tokenize s1 = vals ++ [trim cur] /\
    tokenize (s1 ++ dquote :: s2) = vals ++ [trim (cur ++ s2)] /\
    length (tokenize (s1 ++ dquote :: s2)) = length (tokenize s1).
Proof.
  intros H1 H2. unfold tokenize.
  change (s1 ++ dquote :: s2) with (s1 ++ [dquote] ++ s2). rewrite !scan_app.
  destruct (scan_plain s1 H1 [] []) as (vals & cur & Hfold & _);
    [apply not_elem_of_nil|].
  rewrite Hfold. simpl. rewrite (scan_inside _ H2).
  exists vals, cur. rewrite !length_app. done.
Qed.

Lemma unmatched_quote_swallows_commas_witness :
  (dquote ∉ js "AAA,") /\ (dquote ∉ js "Foo,100") /\
  exists vals cur,
    tokenize "AAA," = vals ++ [trim cur] /\
    tokenize (js "AAA," ++ dquote :: js "Foo,100") = vals ++ [trim (cur ++ js "Foo,100")] /\
    length (tokenize (js "AAA," ++ dquote :: js "Foo,100")) = length (tokenize "AAA,").
Proof.
  assert (dquote ∉ js "AAA,") as H1.
  { intros H. vm_compute in H.
    repeat (apply elem_of_cons in H as [H|H]; [discriminate H|]).
    by apply elem_of_nil in H. }
  assert (dquote ∉ js "Foo,100") as H2.
  { intros H. vm_compute in H.
    repeat (apply elem_of_cons in H as [H|H]; [discriminate H|]).
    by apply elem_of_nil in H. }
  split; [exact H1|]. split; [exact H2|].
  exact (unmatched_quote_swallows_commas _ _ H1 H2).
Defined.

(** ** Properties of the text as lines *)

(** X5.  A first line that is not a header line (a title, a note, a blank
    line) is passed over: the records are those of the text without it. *)
Theorem preamble_line_skipped (p t : jstring) (c c' : console) :
  LF ∉ p -> ~ HeaderLine p ->
  (parseCsv (p ++ LF :: t) c).2 = (parseCsv t c').2.
Proof.
  intros Hp Hh.
  destruct (parseCsv_returns (p ++ LF :: t) c) as [evs1 H1].
  destruct (parseCsv_returns t c') as [evs2 H2].
  rewrite H1, H2. simpl. f_equal. apply parse_skip_line; [exact Hp|].
  destruct (isHeaderLine p) eqn:E; [|reflexivity].
  apply isHeaderLine_HeaderLine in E. done.
Qed.

Lemma preamble_line_skipped_witness :
  (LF ∉ js "Report of the day") /\ ~ HeaderLine "Report of the day" /\
  (parseCsv (js "Report of the day" ++ LF :: mixedRowsText) []).2
  = (parseCsv mixedRowsText []).2.
Proof.
  assert (LF ∉ js "Report of the day") as Hp.
  { intros H. vm_compute in H.
    repeat (apply elem_of_cons in H as [H|H]; [discriminate H|]).
    by apply elem_of_nil in H. }
  assert (~ HeaderLine "Report of the day") as Hh.
  { intros H%isHeaderLine_HeaderLine. vm_compute in H. discriminate. }
  split; [exact Hp|]. split; [exact Hh|].
  exact (preamble_line_skipped _ mixedRowsText [] [] Hp Hh).
Defined.

(** X6.  White space at the two ends of a line never matters: two texts
    whose lines are the same once trimmed give the same records. *)
Theorem line_edges_ignored (t t' : jstring) (c c' : console) :
  Forall2 (fun l l' => trim l = trim l') (split LF t) (split LF t') ->
  (parseCsv t c).2 = (parseCsv t' c').2.
Proof.
  intros Hls.
  destruct (parseCsv_returns t c) as [evs1 H1].
  destruct (parseCsv_returns t' c') as [evs2 H2].
  rewrite H1, H2. simpl. f_equal. by apply parse_lines_trim.
Qed.

Lemma line_edges_ignored_witness :
  Forall2 (fun l l' => trim l = trim l')
    (split LF (unlines [js "  Symbol,Name "; js " AAA,Foo"]))
    (split LF (unlines [js "Symbol,Name"; js "AAA,Foo  "])) /\
  (parseCsv (unlines [js "  Symbol,Name "; js " AAA,Foo"]) []).2
  = (parseCsv (unlines [js "Symbol,Name"; js "AAA,Foo  "]) []).2.
Proof.
  assert (Forall2 (fun l l' => trim l = trim l')
            (split LF (unlines [js "  Symbol,Name "; js " AAA,Foo"]))
            (split LF (unlines [js "Symbol,Name"; js "AAA,Foo  "]))) as Hls.
  { vm_compute. repeat constructor. }
  split; [exact Hls|]. exact (line_edges_ignored _ _ [] [] Hls).
Defined.

(** X7.  Line endings: a carriage return before a line feed changes
    nothing, so a text with CRLF line ends gives the records of the same
    text with LF line ends. *)
Theorem crlf_same_as_lf (a b : jstring) (c c' : console) :
  (parseCsv (a ++ CR :: LF :: b) c).2 = (parseCsv (a ++ LF :: b) c').2.
Proof.
  destruct (parseCsv_returns (a ++ CR :: LF :: b) c) as [evs1 H1].
  destruct (parseCsv_returns (a ++ LF :: b) c') as [evs2 H2].
  rewrite H1, H2. simpl. f_equal. apply parse_lines_trim.
  change (a ++ CR :: LF :: b) with (a ++ [CR] ++ LF :: b).
  rewrite app_assoc, !split_app.
  apply Forall2_app; [|apply Forall_Forall2_diag, Forall_forall; done].
  destruct (split_snoc LF CR a) as (front & l & Ha & Hac); [done|].
  rewrite Ha, Hac. apply Forall2_app.
  - apply Forall_Forall2_diag, Forall_forall. done.
  - constructor; [|constructor]. by apply trim_snoc.
Qed.

(** X8.  A text of white space only has no header line: [parseCsv] warns
    once and returns no record (the caller's test for an empty text only
    chooses the message). *)
Theorem blank_text_no_records (csvText : jstring) (c : console) :
  trim csvText = [] ->
  parseCsv csvText c = (c ++ [WarnNoHeader], Returned []).
Proof.
  intros Hblank. by apply parseCsv_no_header, headerLine_blank.
Qed.

Lemma blank_text_no_records_witness :
  trim (unlines [js "  "; js ""; js " "]) = [] /\
  parseCsv (unlines [js "  "; js ""; js " "]) [] = ([] ++ [WarnNoHeader], Returned []).
Proof.
  split; [vm_compute; reflexivity|].
  apply blank_text_no_records. vm_compute. reflexivity.
Defined.

(** X9.  The header takes a line and every record another: [parseCsv]
    never returns more records than the text has line feeds; a text of one
    line gives none. *)
Theorem records_at_most_line_feeds (csvText : jstring) (c c' : console)
    (data : list record) :
  parseCsv csvText c = (c', Returned data) ->
  length data <= length (List.filter (Ascii.eqb LF) csvText).
Proof.
  intros Hrun. rewrite (parseCsv_data _ _ _ _ Hrun). apply parse_length_le.
Qed.

Lemma records_at_most_line_feeds_witness :
  parseCsv mixedRowsText [] = ((parseCsv mixedRowsText []).1, Returned (parse mixedRowsText)) /\
  length (parse mixedRowsText) <= length (List.filter (Ascii.eqb LF) mixedRowsText).
Proof.
  assert (parseCsv mixedRowsText []
          = ((parseCsv mixedRowsText []).1, Returned (parse mixedRowsText))) as Hrun
    by (destruct (parseCsv_returns mixedRowsText []) as [evs ->]; reflexivity).
  split; [exact Hrun|]. exact (records_at_most_line_feeds _ _ _ _ Hrun).
Defined.

(** ** Properties of the fields *)

Lemma orZero_number (x : number) : orZero x <> S754_nan /\ orZero x <> S754_zero true.
Proof. destruct x as [[]| | |]; simpl; split; discriminate. Qed.

Lemma coerce_string (h v : jstring) :
  isNumericHeader h = false -> coerce h v = VString (replaceEdgeQuotes v).
Proof.
  unfold isNumericHeader, coerce. intros [H1 H2]%orb_false_iff.
  by rewrite H1, H2.
Qed.

Lemma coerce_numeric (h v : jstring) :
  isNumericHeader h = true -> exists x, coerce h v = VNumber (orZero x).
Proof.
  unfold isNumericHeader. intros [H|H]%orb_true_iff.
  - rewrite (coerce_priceOrVolume _ _ H). eauto.
  - apply bool_decide_eq_true in H as ->. rewrite coerce_percent. eauto.
Qed.

Lemma columnText_trimmed (h : jstring) (headers : list jstring) (line v : jstring) :
  columnText h headers (tokenize line) = Some v -> trim v = v.
Proof.
  intros Hv%columnText_elem.
  pose proof (tokenize_trimmed line) as Ht.
  rewrite Forall_forall in Ht. by apply Ht.
Qed.

(** X10.  The type of a field follows its name: under Current_price,
    Price_change, Liquidity, Volume and Percent_change an emitted record
    holds a number that is neither NaN nor the negative zero; under any other
    name it holds a string without white space at its ends. *)
Theorem field_type_by_name (csvText : jstring) (c c' : console)
    (data : list record) (r : record) (k : jstring) (v : value) :
  parseCsv csvText c = (c', Returned data) ->
  r ∈ data ->
  r !! k = Some v ->
  if isNumericHeader k
  then exists x, v = VNumber x /\ x <> S754_nan /\ x <> S754_zero true
  else exists s, v = VString s /\ trim s = s.
Proof.
  intros Hrun Hr Hk. rewrite (parseCsv_data _ _ _ _ Hrun) in Hr.
  apply parse_emitted in Hr as (i & hl & l & _ & _ & _ & ->).
  unfold recordOf in Hk. rewrite buildRow_lookup in Hk.
  destruct (bool_decide (k = js "__proto__")); [done|].
  destruct (columnText k _ _) as [text|] eqn:Htext; [|done].
  simpl in Hk. injection Hk as <-.
  destruct (isNumericHeader k) eqn:Hnum.
  - destruct (coerce_numeric k text Hnum) as [x ->].
    exists (orZero x). split; [reflexivity | apply orZero_number].
  - rewrite (coerce_string _ _ Hnum).
    rewrite (replaceEdgeQuotes_id text (columnText_quoteFree _ _ _ _ Htext)).
    exists text. split; [reflexivity|]. by apply columnText_trimmed in Htext.
Qed.

Lemma field_type_by_name_witness :
  if isNumericHeader "Volume"
  then exists x, VNumber n1234_56 = VNumber x /\ x <> S754_nan /\ x <> S754_zero true
  else exists s, VNumber n1234_56 = VString s /\ trim s = s.
Proof.
  apply (field_type_by_name thousandsText [] (parseCsv thousandsText []).1
           (parse thousandsText)
           (<[js "Symbol" := VString "AAA"]>
              (<[js "Volume" := VNumber n1234_56]>
                 (<[js "Percent_change" := VNumber n1]> ∅)))
           "Volume").
  - destruct (parseCsv_returns thousandsText []) as [evs ->]. reflexivity.
  - vm_compute. left.
  - vm_compute. reflexivity.
Defined.

Lemma columnText_lookup (h : jstring) (headers values : list jstring) (v : jstring) :
  columnText h headers values = Some v ->
  exists j, headers !! j = Some h /\ values !! j = Some v.
Proof.
  unfold columnText. intros Hs.
  assert (v ∈ omap (fun hv : jstring * jstring =>
                      if bool_decide (hv.1 = h) then Some hv.2 else None)
                (zip headers values)) as Hin.
  { destruct (omap _ _) as [|x l] using rev_ind; [done|].
    rewrite last_snoc in Hs. injection Hs as ->. apply elem_of_app. right. left. }
  apply list_elem_of_omap in Hin as ([h' v'] & Hin & Hsome). simpl in Hsome.
  destruct (bool_decide_reflect (h' = h)) as [->|]; [|done]. injection Hsome as ->.
  apply list_elem_of_lookup in Hin as [j Hj].
  apply lookup_zip_with_Some in Hj as (? & ? & [= <- <-] & Hh & Hv). eauto.
Qed.

Lemma replaceSpaces_Symbol (s : jstring) :
  replaceSpaces s = js "Symbol" -> s = js "Symbol".
Proof.
  unfold replaceSpaces. intros H.
  assert (Forall2 (fun c d => (if Ascii.eqb c space then underscore else c) = d)
            s (js "Symbol")) as HF.
  { rewrite <- H. clear H. induction s; constructor; done. }
  clear H. unfold js in *. simpl in *.
  repeat match goal with
         | H : Forall2 _ _ (_ :: _) |- _ =>
             apply Forall2_cons_inv_r in H as (? & ? & ? & ? & ->)
         | H : Forall2 _ _ [] |- _ => apply Forall2_nil_inv_r in H as ->
         end.
  repeat match goal with
         | H : (if Ascii.eqb ?c space then underscore else ?c) = _ |- _ =>
             destruct (Ascii.eqb c space); [discriminate H | subst]
         end.
  reflexivity.
Qed.

(** X11.  The header line is not told apart from data: when it holds no
    double quote and names a Symbol column, a later copy of it qualifies as a
    data line, and its record has the Symbol "Symbol". *)
Theorem repeated_header_is_a_row (hl : jstring) :
  dquote ∉ hl ->
  js "Symbol" ∈ headerRow hl ->
  Qualifies (headerRow hl) hl /\
  recordOf (headerRow hl) hl !! js "Symbol" = Some (VString "Symbol").
Proof.
  intros Hq Hsym.
  assert (dquote ∉ trim hl) as Hqt by (intros H; by apply elem_of_trim in H).
  assert (tokenize (trim hl) = map trim (split comma (trim hl))) as Htok
    by (by apply tokenize_plain).
  assert (length (tokenize (trim hl)) = length (headerRow hl)) as Hlen.
  { rewrite Htok. unfold headerRow. by rewrite !length_map. }
  destruct (proj2 (columnText_is_Some "Symbol" _ _ Hlen) Hsym) as [s Hs].
  assert (s = js "Symbol") as ->.
  { destruct (columnText_lookup _ _ _ _ Hs) as (j & Hh & Hv).
    rewrite Htok in Hv. unfold headerRow in Hh.
    rewrite list_lookup_fmap in Hh, Hv.
    destruct (split comma (trim hl) !! j) as [tok|]; [|done].
    simpl in Hh, Hv. injection Hh as Hh. injection Hv as <-.
    unfold normalizeHeader in Hh. apply replaceSpaces_Symbol in Hh.
    rewrite replaceEdgeQuotes_id in Hh; [done|].
    by apply (columnText_quoteFree _ _ _ _ Hs). }
  split.
  - split; [|split; [exact Hlen|]].
    + intros Hblank. unfold headerRow in Hsym. rewrite Hblank in Hsym.
      vm_compute in Hsym. apply list_elem_of_singleton in Hsym. discriminate Hsym.
    + exists (js "Symbol"). done.
  - unfold recordOf. rewrite buildRow_lookup, Hs. reflexivity.
Qed.

Lemma repeated_header_is_a_row_witness :
  (dquote ∉ js "Symbol,Name,Price") /\
  js "Symbol" ∈ headerRow "Symbol,Name,Price" /\
  Qualifies (headerRow "Symbol,Name,Price") "Symbol,Name,Price" /\
  recordOf (headerRow "Symbol,Name,Price") "Symbol,Name,Price" !! js "Symbol"
  = Some (VString "Symbol").
Proof.
  assert (dquote ∉ js "Symbol,Name,Price") as Hq.
  { intros H. vm_compute in H.
    repeat (apply elem_of_cons in H as [H|H]; [discriminate H|]).
    by apply elem_of_nil in H. }
  assert (js "Symbol" ∈ headerRow "Symbol,Name,Price") as Hsym
    by (vm_compute; left).
  split; [exact Hq|]. split; [exact Hsym|].
  exact (repeated_header_is_a_row _ Hq Hsym).
Defined.

(** ** Numbers in the fields *)

Lemma digit_first (d : ascii) :
  isDigit d = true ->
  isWhiteSpace d = false /\ d <> dquote /\
  Ascii.eqb d "-" = false /\ Ascii.eqb d "+" = false /\
  Ascii.eqb "I" d = false /\ Ascii.eqb d "." = false.
Proof.
  destruct d as [[] [] [] [] [] [] [] []]; vm_compute; intros H;
    try discriminate H; repeat split; discriminate.
Qed.

Lemma spanDigits_app (ds rest : jstring) :
  Forall (fun c => isDigit c = true) ds ->
  match rest with [] => True | c :: _ => isDigit c = false end ->
  spanDigits (ds ++ rest) = (ds, rest).
Proof.
  intros Hds Hrest. induction Hds as [|d ds Hd _ IH]; simpl.
  - destruct rest as [|c rest]; [reflexivity|]. simpl. by rewrite Hrest.
  - by rewrite Hd, IH.
Qed.

Lemma parseFloat_unsigned (neg : bool) (ip fp : jstring) (dotted : bool) (stop : jstring) :
  ip <> [] ->
  Forall (fun c => isDigit c = true) ip ->
  Forall (fun c => isDigit c = true) fp ->
  (dotted = false -> fp = []) ->
  stopsNumber dotted stop ->
  (let s1 := ip ++ (if dotted then "."%char :: fp else []) ++ stop in
   if startsWith s1 "Infinity" then S754_infinity neg
   else
     let '(ip', s2) := spanDigits s1 in
     let '(fp', s3) :=
       match s2 with
       | c :: s2' => if Ascii.eqb c "."%char then spanDigits s2' else ([], s2)
       | [] => ([], s2)
       end in
     match ip' ++ fp' with
     | [] => NaN
     | ds => ofDecimal neg (digitsValue ds) (exponentPart s3 - Z.of_nat (length fp'))
     end)
  = ofDecimal neg (digitsValue (ip ++ fp)) (- Z.of_nat (length fp)).
Proof.
  intros Hne Hip Hfp Hdot Hstop. cbv zeta.
  destruct ip as [|d ip]; [done|].
  pose proof (Forall_inv Hip) as Hd. apply digit_first in Hd as (_ & _ & _ & _ & HI & _).
  change (startsWith ((d :: ip) ++ _) (js "Infinity"))
    with (Ascii.eqb "I" d && startsWith (ip ++ (if dotted then "."%char :: fp else []) ++ stop)
                               (js "nfinity")).
  rewrite HI. simpl andb. cbv iota.
  assert (exponentPart stop = 0%Z) as Hexp.
  { destruct stop as [|ch rest]; [reflexivity|].
    destruct Hstop as (_ & He & HE & _). simpl.
    destruct (Ascii.eqb_spec ch "e") as [->|_]; [done|].
    destruct (Ascii.eqb_spec ch "E") as [->|_]; [done|]. reflexivity. }
  destruct dotted.
  - rewrite (spanDigits_app (d :: ip) (("."%char :: fp) ++ stop) Hip); [|reflexivity].
    change ((("."%char :: fp) ++ stop)) with ("."%char :: (fp ++ stop)).
    cbv beta iota. rewrite Ascii.eqb_refl, (spanDigits_app fp stop Hfp).
    + cbv beta iota. simpl app. rewrite Hexp. reflexivity.
    + destruct stop as [|ch rest]; [done|]. by destruct Hstop.
  - rewrite (Hdot eq_refl). simpl app at 2.
    rewrite (spanDigits_app (d :: ip) stop Hip).
    + cbv beta iota. destruct stop as [|ch rest].
      * rewrite app_nil_r. reflexivity.
      * destruct Hstop as (_ & _ & _ & Hnd).
        destruct (Ascii.eqb_spec ch ".") as [->|_]; [by destruct (Hnd eq_refl)|].
        rewrite app_nil_r, Hexp. reflexivity.
    + destruct stop as [|ch rest]; [done|]. by destruct Hstop.
Qed.

Lemma parseFloat_numeral (sgn ip fp : jstring) (dotted : bool) (stop : jstring) :
  sgn = [] \/ sgn = js "-" \/ sgn = js "+" ->
  ip <> [] ->
  Forall (fun c => isDigit c = true) ip ->
  Forall (fun c => isDigit c = true) fp ->
  (dotted = false -> fp = []) ->
  stopsNumber dotted stop ->
  parseFloat (numeral sgn ip dotted fp ++ stop)
  = ofDecimal (bool_decide (sgn = js "-")) (digitsValue (ip ++ fp))
      (- Z.of_nat (length fp)).
Proof.
  intros Hsgn Hne Hip Hfp Hdot Hstop. unfold numeral.
  rewrite <- !app_assoc.
  pose proof (parseFloat_unsigned (bool_decide (sgn = js "-")) ip fp dotted stop
                Hne Hip Hfp Hdot Hstop) as Hbody.
  cbv zeta in Hbody. unfold parseFloat.
  destruct Hsgn as [->|[->| ->]].
  - destruct ip as [|d ip]; [done|].
    pose proof (Forall_inv Hip) as Hd.
    apply digit_first in Hd as (Hws & _ & Hminus & Hplus & _ & _).
    simpl app at 1. simpl trimStart. rewrite Hws.
    unfold takeSign. rewrite Hminus, Hplus. exact Hbody.
  - exact Hbody.
  - exact Hbody.
Qed.

Lemma numeral_quoteFree (sgn ip fp : jstring) (dotted : bool) :
  sgn = [] \/ sgn = js "-" \/ sgn = js "+" ->
  Forall (fun c => isDigit c = true) ip ->
  Forall (fun c => isDigit c = true) fp ->
  dquote ∉ numeral sgn ip dotted fp.
Proof.
  intros Hsgn Hip Hfp.
  assert (forall ds, Forall (fun c => isDigit c = true) ds -> dquote ∉ ds) as Hds.
  { intros ds H Hin. rewrite Forall_forall in H. apply H, digit_first in Hin.
    by destruct Hin as (_ & ? & _). }
  unfold numeral. rewrite !elem_of_app. intros [H|[H|H]].
  - destruct Hsgn as [->|[->| ->]].
    + by apply elem_of_nil in H.
    + apply list_elem_of_singleton in H. discriminate H.
    + apply list_elem_of_singleton in H. discriminate H.
  - by apply (Hds ip).
  - destruct dotted; [|by apply elem_of_nil in H].
    apply elem_of_cons in H as [H|H]; [discriminate H | by apply (Hds fp)].
Qed.

(** X12.  In the column Percent_change the text is parsed as it stands, and
    parsing reads the number at its front and stops at the first character
    that cannot continue it: a percent sign, a unit, or the comma of a
    thousands separator.  What follows is ignored. *)
Theorem percent_reads_leading_number (sgn ip fp : jstring) (dotted : bool)
    (stop : jstring) :
  sgn = [] \/ sgn = js "-" \/ sgn = js "+" ->
  ip <> [] ->
  Forall (fun c => isDigit c = true) ip ->
  Forall (fun c => isDigit c = true) fp ->
  (dotted = false -> fp = []) ->
  stopsNumber dotted stop ->
  dquote ∉ stop ->
  coerce "Percent_change" (numeral sgn ip dotted fp ++ stop)
  = coerce "Percent_change" (numeral sgn ip dotted fp).
Proof.
  intros Hsgn Hne Hip Hfp Hdot Hstop Hq.
  pose proof (numeral_quoteFree sgn ip fp dotted Hsgn Hip Hfp) as Hnq.
  rewrite !coerce_percent.
  rewrite !replaceEdgeQuotes_id; [|exact Hnq|].
  - rewrite (parseFloat_numeral sgn ip fp dotted stop) by done.
    rewrite <- (app_nil_r (numeral sgn ip dotted fp)).
    rewrite (parseFloat_numeral sgn ip fp dotted []) by done.
    reflexivity.
  - rewrite elem_of_app. intros [?|?]; done.
Qed.

Lemma percent_reads_leading_number_witness :
  coerce "Percent_change" (numeral "-" "12" true "5" ++ js "% today")
  = coerce "Percent_change" (numeral "-" "12" true "5") /\
  coerce "Percent_change" (numeral "" "1" false "" ++ js ",234.56")
  = coerce "Percent_change" (numeral "" "1" false "").
Proof.
  split.
  - apply percent_reads_leading_number.
    + right. left. reflexivity.
    + discriminate.
    + repeat constructor.
    + repeat constructor.
    + discriminate.
    + vm_compute. repeat split; discriminate.
    + intros H. vm_compute in H.
      repeat (apply elem_of_cons in H as [H|H]; [discriminate H|]).
      by apply elem_of_nil in H.
  - apply percent_reads_leading_number.
    + left. reflexivity.
    + discriminate.
    + repeat constructor.
    + constructor.
    + reflexivity.
    + vm_compute. repeat split; discriminate.
    + intros H. vm_compute in H.
      repeat (apply elem_of_cons in H as [H|H]; [discriminate H|]).
      by apply elem_of_nil in H.
Defined.

(** ** The sort of line 50 *)

(** *** Rounding keeps the sign *)

Lemma digits2_pos_bound (p : positive) : (2 ^ (Z.pos (digits2_pos p) - 1) <= Z.pos p)%Z.
Proof.
  induction p as [p IH|p IH|]; simpl digits2_pos; [| |done].
  - rewrite Pos2Z.inj_succ.
    replace (Z.succ (Z.pos (digits2_pos p)) - 1)%Z
      with (Z.succ (Z.pos (digits2_pos p) - 1)) by lia.
    rewrite Z.pow_succ_r by lia. lia.
  - rewrite Pos2Z.inj_succ.
    replace (Z.succ (Z.pos (digits2_pos p)) - 1)%Z
      with (Z.succ (Z.pos (digits2_pos p) - 1)) by lia.
    rewrite Z.pow_succ_r by lia. lia.
Qed.

Lemma shr_1_m (mrs : shr_record) :
  (0 <= shr_m mrs)%Z -> shr_m (shr_1 mrs) = Z.shiftr (shr_m mrs) 1.
Proof.
  destruct mrs as [[|[p|p|]|p] r s]; simpl; intros H; try reflexivity; lia.
Qed.

Lemma iter_pos_shr_1 (q : positive) (mrs : shr_record) :
  (0 <= shr_m mrs)%Z ->
  shr_m (iter_pos shr_1 q mrs) = Z.shiftr (shr_m mrs) (Z.pos q).
Proof.
  revert mrs. induction q as [q IH|q IH|]; intros mrs Hm; simpl iter_pos.
  - assert (0 <= shr_m (shr_1 mrs))%Z as H1
      by (rewrite shr_1_m by done; by apply Z.shiftr_nonneg).
    assert (0 <= shr_m (iter_pos shr_1 q (shr_1 mrs)))%Z as H2
      by (rewrite IH by done; by apply Z.shiftr_nonneg).
    rewrite IH, IH, shr_1_m by done.
    rewrite !Z.shiftr_shiftr by lia. f_equal. lia.
  - assert (0 <= shr_m (iter_pos shr_1 q mrs))%Z as H2
      by (rewrite IH by done; by apply Z.shiftr_nonneg).
    rewrite IH, IH by done.
    rewrite !Z.shiftr_shiftr by lia. f_equal. lia.
  - by apply shr_1_m.
Qed.

Lemma shr_record_of_loc_m (m : Z) (l : location) : shr_m (shr_record_of_loc m l) = m.
Proof. by destruct l as [|[]]. Qed.

(** Shifting to the format's exponent leaves no exponent below [emin], and
    keeps a mantissa above zero when the exponent was not below [emin]. *)
Lemma shr_fexp_exponent (m e : Z) (l : location) :
  (emin prec emax <= (shr_fexp prec emax m e l).2)%Z.
Proof.
  unfold shr_fexp, shr, fexp.
  destruct (Z.max (Zdigits2 m + e - prec) (emin prec emax) - e)%Z eqn:Hn; simpl; lia.
Qed.

Lemma shr_fexp_positive (m e : Z) (l : location) :
  (0 < m)%Z -> (emin prec emax <= e)%Z ->
  (0 < shr_m (shr_fexp prec emax m e l).1)%Z.
Proof.
  intros Hm He. unfold shr_fexp, shr, fexp.
  destruct (Z.max (Zdigits2 m + e - prec) (emin prec emax) - e)%Z as [|q|q] eqn:Hn;
    simpl; rewrite ?shr_record_of_loc_m; try done.
  rewrite iter_pos_shr_1 by (rewrite shr_record_of_loc_m; lia).
  rewrite shr_record_of_loc_m, Z.shiftr_div_pow2 by lia.
  destruct m as [|p|p]; try lia. simpl Zdigits2 in Hn.
  apply Z.div_str_pos. split; [by apply Z.pow_pos_nonneg|].
  etrans; [|apply digits2_pos_bound].
  apply Z.pow_le_mono_r; [lia|]. unfold prec in *. lia.
Qed.

Lemma round_nearest_even_positive (m : Z) (l : location) :
  (0 < m)%Z -> (0 < round_nearest_even m l)%Z.
Proof. intros Hm. destruct l as [|[]]; simpl; try destruct (Z.even m); lia. Qed.

(** Rounding gives no exponent below [emin]. *)
Lemma binary_round_aux_wellFormed (sx : bool) (m e : Z) (l : location) :
  wellFormed (binary_round_aux prec emax sx m e l).
Proof.
  unfold binary_round_aux.
  destruct (shr_fexp prec emax m e l) as [mrs' e'].
  pose proof (shr_fexp_exponent
                (round_nearest_even (shr_m mrs') (loc_of_shr_record mrs')) e' loc_Exact) as H2.
  destruct (shr_fexp prec emax _ e' loc_Exact) as [mrs'' e''].
  destruct (shr_m mrs''); [done| |done].
  by destruct (Z.leb _ _).
Qed.

(** Rounding a positive mantissa keeps it away from zero: the result has
    the sign [sx]. *)
Lemma binary_round_aux_sign (sx : bool) (m e : Z) (l : location) :
  (0 < m)%Z -> (emin prec emax <= e)%Z ->
  binary_round_aux prec emax sx m e l = S754_infinity sx \/
  exists m' e', binary_round_aux prec emax sx m e l = S754_finite sx m' e'.
Proof.
  intros Hm He. unfold binary_round_aux.
  pose proof (shr_fexp_positive m e l Hm He) as H1.
  pose proof (shr_fexp_exponent m e l) as H1'.
  destruct (shr_fexp prec emax m e l) as [mrs' e']. simpl in H1, H1'.
  pose proof (shr_fexp_positive _ e' loc_Exact
                (round_nearest_even_positive _ (loc_of_shr_record mrs') H1) H1') as H2.
  destruct (shr_fexp prec emax _ e' loc_Exact) as [mrs'' e'']. simpl in H2.
  destruct (shr_m mrs''); [lia| |lia].
  destruct (Z.leb _ _); eauto.
Qed.

Lemma Pos_iter_xO (m d : positive) : Z.pos (Pos.iter xO m d) = (Z.pos m * 2 ^ Z.pos d)%Z.
Proof.
  induction d as [|d IH] using Pos.peano_ind.
  - simpl. lia.
  - rewrite Pos.iter_succ, Pos2Z.inj_xO, IH, Pos2Z.inj_succ, Z.pow_succ_r by lia. lia.
Qed.

Lemma shl_align_value (m : positive) (e ez : Z) :
  (ez <= e)%Z -> Z.pos (shl_align m e ez).1 = (Z.pos m * 2 ^ (e - ez))%Z.
Proof.
  intros Hle. unfold shl_align. destruct (ez - e)%Z as [|d|d] eqn:Hd; simpl.
  - replace (e - ez)%Z with 0%Z by lia. lia.
  - lia.
  - rewrite Pos_iter_xO. f_equal. f_equal. lia.
Qed.

Lemma shl_align_exponent (m : positive) (e ez : Z) :
  (Z.min e ez <= (shl_align m e ez).2)%Z.
Proof. unfold shl_align. destruct (ez - e)%Z eqn:Hd; simpl; lia. Qed.

Lemma binary_round_sign (sx : bool) (m : positive) (e : Z) :
  (emin prec emax <= e)%Z ->
  binary_round prec emax sx m e = S754_infinity sx \/
  exists m' e', binary_round prec emax sx m e = S754_finite sx m' e'.
Proof.
  intros He. unfold binary_round.
  pose proof (shl_align_exponent m e (fexp prec emax (Z.pos (digits2_pos m) + e))) as Hz.
  destruct (shl_align m e _) as [mz ez]. simpl in Hz.
  apply binary_round_aux_sign; [done|]. unfold fexp in Hz. lia.
Qed.

Lemma binary_round_wellFormed (sx : bool) (m : positive) (e : Z) :
  wellFormed (binary_round prec emax sx m e).
Proof.
  unfold binary_round. destruct (shl_align m e _) as [mz ez].
  apply binary_round_aux_wellFormed.
Qed.

Lemma binary_normalize_wellFormed (m e : Z) (sz : bool) :
  wellFormed (binary_normalize prec emax m e sz).
Proof. destruct m; [done|apply binary_round_wellFormed..]. Qed.

Lemma SFdiv_wellFormed (x y : number) : wellFormed (SFdiv prec emax x y).
Proof.
  destruct x as [| | |sx mx ex], y as [| | |sy my ey]; try done.
  unfold SFdiv. destruct (SFdiv_core_binary _ _ _ _ _ _) as [[mz ez] lz].
  apply binary_round_aux_wellFormed.
Qed.

Lemma parseFloat_wellFormed (s : jstring) : wellFormed (parseFloat s).
Proof.
  unfold parseFloat.
  destruct (takeSign (trimStart s)) as [neg s1].
  destruct (startsWith s1 "Infinity"); [done|].
  destruct (spanDigits s1) as [ip s2].
  destruct (match s2 with
            | [] => ([], s2)
            | c :: s2' => if Ascii.eqb c "." then spanDigits s2' else ([], s2)
            end) as [fp s3].
  destruct (ip ++ fp) as [|d ds]; [done|].
  unfold ofDecimal. destruct (digitsValue (d :: ds)); [done|].
  destruct (0 <=? _)%Z.
  - apply binary_normalize_wellFormed.
  - apply SFdiv_wellFormed.
Qed.

Lemma orZero_wellFormed (x : number) : wellFormed x -> wellFormed (orZero x).
Proof. by destruct x. Qed.

Lemma compare_intro (c : comparison) (a b : Z) :
  match c with Eq => a = b | Lt => (a < b)%Z | Gt => (b < a)%Z end ->
  Some c = Some (a ?= b)%Z.
Proof.
  intros H. f_equal. symmetry. destruct c.
  - by apply Z.compare_eq_iff.
  - by apply Z.compare_lt_iff.
  - apply Z.compare_gt_iff. lia.
Qed.

(** The sign of a difference of two finite numbers is the sign of the
    difference of their values. *)
Lemma SFsub_sign (y x : number) :
  wellFormed x -> wellFormed y -> isFinite x -> isFinite y ->
  signOf (SFsub prec emax y x) = Some (scaled y ?= scaled x)%Z.
Proof.
  intros Hx Hy Fx Fy.
  destruct x as [sx| | |sx mx ex], y as [sy| | |sy my ey]; try done.
  - by destruct sx, sy.
  - simpl in Hy.
    assert (0 < Z.pos my * 2 ^ (ey - emin prec emax))%Z
      by (apply Z.mul_pos_pos; [lia|apply Z.pow_pos_nonneg; lia]).
    destruct sy; [apply (compare_intro Lt) | apply (compare_intro Gt)];
      unfold scaled, cond_Zopp; lia.
  - simpl in Hx.
    assert (0 < Z.pos mx * 2 ^ (ex - emin prec emax))%Z
      by (apply Z.mul_pos_pos; [lia|apply Z.pow_pos_nonneg; lia]).
    destruct sx; [apply (compare_intro Gt) | apply (compare_intro Lt)];
      unfold scaled, cond_Zopp; lia.
  - simpl in Hx, Hy. unfold SFsub. cbv zeta.
    set (ez := Z.min ey ex).
    rewrite (shl_align_value my ey ez), (shl_align_value mx ex ez) by lia.
    set (P := (2 ^ (ez - emin prec emax))%Z).
    assert (0 < P)%Z as HP by (apply Z.pow_pos_nonneg; lia).
    set (A := (Z.pos mx * 2 ^ (ex - ez))%Z).
    set (B := (Z.pos my * 2 ^ (ey - ez))%Z).
    assert (scaled (S754_finite sx mx ex) = cond_Zopp sx A * P)%Z as ->.
    { unfold scaled, A, P.
      replace (ex - emin prec emax)%Z with ((ex - ez) + (ez - emin prec emax))%Z by lia.
      rewrite Z.pow_add_r by lia. destruct sx; simpl; lia. }
    assert (scaled (S754_finite sy my ey) = cond_Zopp sy B * P)%Z as ->.
    { unfold scaled, B, P.
      replace (ey - emin prec emax)%Z with ((ey - ez) + (ez - emin prec emax))%Z by lia.
      rewrite Z.pow_add_r by lia. destruct sy; simpl; lia. }
    destruct (cond_Zopp sy B - cond_Zopp sx A)%Z as [|d|d] eqn:HD; unfold binary_normalize.
    + apply (compare_intro Eq). nia.
    + destruct (binary_round_sign false d ez ltac:(lia)) as [->|(m' & e' & ->)];
        apply (compare_intro Gt); nia.
    + destruct (binary_round_sign true d ez ltac:(lia)) as [->|(m' & e' & ->)];
        apply (compare_intro Lt); nia.
Qed.

(** *** The insertion sort of the examples meets the contract *)

Lemma insertByLiquidity_perm (stock : record) (l : list record) :
  insertByLiquidity stock l ≡ₚ stock :: l.
Proof.
  induction l as [|s l IH]; simpl; [reflexivity|].
  destruct (compareCF stock s) as [[]|]; try reflexivity.
  rewrite IH. apply Permutation_swap.
Qed.

Lemma exampleEngine_perm (l : list record) : sortByLiquidity exampleEngine l ≡ₚ l.
Proof.
  simpl. induction l as [|s l IH]; simpl; [reflexivity|].
  rewrite insertByLiquidity_perm. by constructor.
Qed.

Lemma descending_sorted (l : list record) : descending l -> SortedByLiquidity l.
Proof.
  induction l as [|a l IH]; intros Hd j k x y Hjk Hj Hk; [done|].
  destruct Hd as [Ha Hl]. destruct k as [|k]; [lia|]. simpl in Hk.
  destruct j as [|j].
  - injection Hj as <-. rewrite Forall_forall in Ha.
    apply Ha. by eapply list_elem_of_lookup_2.
  - simpl in Hj. apply (IH Hl j k); [lia|done..].
Qed.

Section Consistent.
Variable L : list record.
Hypothesis HL : ConsistentComparator L.

(** What follows from consistency: [<CF] and [>CF] mirror each other, and
    "not after" is transitive. *)
Lemma CF_lt_gt (a b : record) :
  a ∈ L -> b ∈ L -> compareCF a b = Some Lt -> compareCF b a = Some Gt.
Proof.
  intros Ha Hb Hab. destruct (CF_number L HL b a Hb Ha) as [[] Hba]; [| |done].
  - apply (CF_sym L HL) in Hba; [congruence|done..].
  - pose proof (CF_lt_trans L HL a b a Ha Hb Ha Hab Hba) as H.
    rewrite (CF_refl L HL a Ha) in H. done.
Qed.

Lemma CF_gt_lt (a b : record) :
  a ∈ L -> b ∈ L -> compareCF a b = Some Gt -> compareCF b a = Some Lt.
Proof.
  intros Ha Hb Hab. destruct (CF_number L HL b a Hb Ha) as [[] Hba]; [|done|].
  - apply (CF_sym L HL) in Hba; [congruence|done..].
  - pose proof (CF_gt_trans L HL a b a Ha Hb Ha Hab Hba) as H.
    rewrite (CF_refl L HL a Ha) in H. done.
Qed.

Lemma CF_le_trans (a b c : record) :
  a ∈ L -> b ∈ L -> c ∈ L ->
  compareCF a b <> Some Gt -> compareCF b c <> Some Gt -> compareCF a c <> Some Gt.
Proof.
  intros Ha Hb Hc Hab Hbc Hac.
  pose proof (CF_gt_lt a c Ha Hc Hac) as Hca.
  destruct (CF_number L HL a b Ha Hb) as [[] Hab']; [| |done];
    destruct (CF_number L HL b c Hb Hc) as [[] Hbc']; try done.
  - pose proof (CF_eq_trans L HL a b c Ha Hb Hc Hab' Hbc'). congruence.
  - pose proof (CF_lt_trans L HL b c a Hb Hc Ha Hbc' Hca) as Hba.
    apply (CF_sym L HL) in Hab'; [congruence|done..].
  - pose proof (CF_lt_trans L HL c a b Hc Ha Hb Hca Hab') as Hcb.
    apply (CF_sym L HL) in Hbc'; [congruence|done..].
  - pose proof (CF_lt_trans L HL a b c Ha Hb Hc Hab' Hbc'). congruence.
Qed.

Lemma insertByLiquidity_descending (x : record) (l : list record) :
  x ∈ L -> l ⊆ L -> descending l -> descending (insertByLiquidity x l).
Proof.
  intros Hx. induction l as [|s l IH]; intros Hl Hd; [done|].
  assert (s ∈ L) as Hs by (apply Hl; left).
  assert (l ⊆ L) as Hl' by (intros y Hy; apply Hl; by right).
  destruct Hd as [Hsl Hd]. simpl.
  assert (compareCF x s <> Some Gt -> descending (x :: s :: l)) as Hfront.
  { intros Hxs. split; [|done]. constructor; [done|].
    rewrite Forall_forall in Hsl |- *. intros b Hb.
    apply (CF_le_trans x s b); auto. }
  destruct (compareCF x s) as [[]|] eqn:Hxs; try (by apply Hfront).
  split; [|by apply IH].
  rewrite insertByLiquidity_perm. constructor; [|done].
  by rewrite (CF_gt_lt x s Hx Hs Hxs).
Qed.

Lemma insertByLiquidity_ties (y x : record) (l : list record) :
  y ∈ L -> x ∈ L -> l ⊆ L ->
  filter (fun r => compareCF y r = Some Eq) (insertByLiquidity x l)
  = filter (fun r => compareCF y r = Some Eq) (x :: l).
Proof.
  intros Hy Hx. induction l as [|s l IH]; intros Hl; [done|].
  assert (s ∈ L) as Hs by (apply Hl; left).
  assert (l ⊆ L) as Hl' by (intros z Hz; apply Hl; by right).
  simpl. destruct (compareCF x s) as [[]|] eqn:Hxs; try done.
  rewrite (filter_cons _ s), (IH Hl'), !(filter_cons _ x), !(filter_cons _ s).
  destruct (decide (compareCF y s = Some Eq)) as [Hys|Hys]; [|done].
  destruct (decide (compareCF y x = Some Eq)) as [Hyx|Hyx]; [|done].
  apply (CF_sym L HL) in Hyx; [|done..].
  pose proof (CF_eq_trans L HL x y s Hx Hy Hs Hyx Hys). congruence.
Qed.

Lemma sort_within (l : list record) : l ⊆ L -> foldr insertByLiquidity [] l ⊆ L.
Proof.
  intros Hl y Hy. apply Hl.
  by rewrite (exampleEngine_perm l) in Hy.
Qed.

Lemma sort_descending (l : list record) :
  l ⊆ L -> descending (foldr insertByLiquidity [] l).
Proof.
  induction l as [|x l IH]; intros Hl; [done|]. simpl.
  assert (l ⊆ L) as Hl' by (intros z Hz; apply Hl; by right).
  apply insertByLiquidity_descending; [apply Hl; left|by apply sort_within|by apply IH].
Qed.

Lemma sort_ties (y : record) (l : list record) :
  y ∈ L -> l ⊆ L ->
  filter (fun r => compareCF y r = Some Eq) (foldr insertByLiquidity [] l)
  = filter (fun r => compareCF y r = Some Eq) l.
Proof.
  intros Hy. induction l as [|x l IH]; intros Hl; [done|]. simpl.
  assert (l ⊆ L) as Hl' by (intros z Hz; apply Hl; by right).
  rewrite insertByLiquidity_ties; [|done|apply Hl; left|by apply sort_within].
  by rewrite !(filter_cons _ x), (IH Hl').
Qed.

End Consistent.

(** The engine of the examples sorts as ECMAScript asks. *)
Lemma exampleEngine_contract : SortContract exampleEngine.
Proof.
  intros l HS. split.
  - apply descending_sorted, (sort_descending l HS). done.
  - intros x Hx. by apply (sort_ties l HS).
Qed.

(** *** The comparator on the records of [parseCsv] *)

(** A comparator that compares keys is consistent. *)
Lemma consistent_by_key (l : list record) (key : record -> Z) :
  (forall a b, a ∈ l -> b ∈ l -> compareCF a b = Some (key b ?= key a)%Z) ->
  ConsistentComparator l.
Proof.
  intros Hkey. split.
  - intros a b Ha Hb. rewrite Hkey by done. eauto.
  - intros a Ha. rewrite Hkey by done. by rewrite Z.compare_refl.
  - intros a b Ha Hb. rewrite !Hkey by done. intros [= H%Z.compare_eq_iff].
    f_equal. apply Z.compare_eq_iff. lia.
  - intros a b c Ha Hb Hc. rewrite !Hkey by done.
    intros [= H1%Z.compare_eq_iff] [= H2%Z.compare_eq_iff].
    f_equal. apply Z.compare_eq_iff. lia.
  - intros a b c Ha Hb Hc. rewrite !Hkey by done.
    intros [= H1] [= H2]. f_equal.
    change (key b < key a)%Z in H1. change (key c < key b)%Z in H2.
    change (key c < key a)%Z. lia.
  - intros a b c Ha Hb Hc. rewrite !Hkey by done.
    intros [= H1%Z.compare_gt_iff] [= H2%Z.compare_gt_iff].
    f_equal. apply Z.compare_gt_iff. lia.
Qed.

(** The Liquidity of an emitted record, when it has one, is a number. *)
Lemma parse_liquidity (csvText : jstring) (r : record) :
  r ∈ parse csvText ->
  match r !! js "Liquidity" with
  | None => True
  | Some (VNumber x) => wellFormed x
  | Some (VString _) => False
  end.
Proof.
  intros Hr. apply parse_emitted in Hr as (i & hl & l & _ & _ & _ & ->).
  unfold recordOf. rewrite buildRow_lookup.
  rewrite (bool_decide_eq_false_2 (js "Liquidity" = js "__proto__")) by done.
  destruct (columnText _ _ _) as [text|]; [|done].
  change (coerce (js "Liquidity") <$> Some text)
    with (Some (coerce (js "Liquidity") text)).
  rewrite (coerce_priceOrVolume (js "Liquidity") text) by reflexivity.
  apply orZero_wellFormed, parseFloat_wellFormed.
Qed.

Lemma parse_liquidityOrZero (csvText : jstring) (r : record) :
  r ∈ parse csvText -> finiteLiquidity r ->
  exists x, liquidityOrZero r = Some x /\ wellFormed x /\ isFinite x.
Proof.
  intros Hr Hfin. apply parse_liquidity in Hr.
  unfold liquidityOrZero, finiteLiquidity in *.
  destruct (r !! js "Liquidity") as [[s|x]|]; [done| |by exists zero].
  exists (orZero x). split; [done|]. split; [by apply orZero_wellFormed|].
  by destruct x.
Qed.

Lemma parse_compareCF (csvText : jstring) (a b : record) :
  a ∈ parse csvText -> b ∈ parse csvText ->
  finiteLiquidity a -> finiteLiquidity b ->
  compareCF a b = Some (liquidityKey b ?= liquidityKey a)%Z.
Proof.
  intros Ha Hb Fa Fb.
  destruct (parse_liquidityOrZero _ _ Ha Fa) as (x & Hx & Wx & Fx).
  destruct (parse_liquidityOrZero _ _ Hb Fb) as (y & Hy & Wy & Fy).
  unfold compareCF, liquidityComparator, liquidityKey. rewrite Hx, Hy.
  by apply SFsub_sign.
Qed.

(** On the records of [parseCsv], none with an infinite Liquidity, the
    comparator of line 50 is consistent. *)
Lemma parse_consistent (csvText : jstring) :
  Forall finiteLiquidity (parse csvText) -> ConsistentComparator (parse csvText).
Proof.
  rewrite Forall_forall. intros Hfin.
  apply (consistent_by_key _ liquidityKey). intros a b Ha Hb.
  apply (parse_compareCF csvText); auto.
Qed.

Lemma parse_descending (csvText : jstring) (shown : list record) :
  shown ≡ₚ parse csvText ->
  Forall finiteLiquidity (parse csvText) ->
  SortedByLiquidity shown -> DescendingLiquidity shown.
Proof.
  intros Hperm Hfin Hsorted j k a b Hjk Hj Hk.
  rewrite Forall_forall in Hfin.
  assert (a ∈ parse csvText) as Ha
    by (rewrite <- Hperm; by eapply list_elem_of_lookup_2).
  assert (b ∈ parse csvText) as Hb
    by (rewrite <- Hperm; by eapply list_elem_of_lookup_2).
  destruct (parse_liquidityOrZero _ _ Ha (Hfin a Ha)) as (x & Hx & _).
  destruct (parse_liquidityOrZero _ _ Hb (Hfin b Hb)) as (y & Hy & _).
  exists x, y. split; [done|]. split; [done|].
  pose proof (Hsorted j k a b Hjk Hj Hk) as Hgt.
  rewrite (parse_compareCF csvText a b Ha Hb (Hfin a Ha) (Hfin b Hb)) in Hgt.
  unfold liquidityKey in Hgt. rewrite Hx, Hy in Hgt.
  destruct (Z.compare_spec (scaled y) (scaled x)); [lia..|done].
Qed.

(** With an infinite Liquidity the comparator is not consistent: called on
    the stock and itself it gives [Infinity - Infinity], which is NaN. *)
Lemma infinite_liquidity_not_consistent (l : list record) (a : record) (sg : bool) :
  a ∈ l -> a !! js "Liquidity" = Some (VNumber (S754_infinity sg)) ->
  ~ ConsistentComparator l.
Proof.
  intros Ha Hliq HC. pose proof (CF_refl l HC a Ha) as H.
  unfold compareCF, liquidityComparator, liquidityOrZero in H.
  rewrite Hliq in H. by destruct sg.
Qed.

(** [parseCsv] stores an infinite Liquidity for the text [Infinity]. *)
Lemma infinite_liquidity_parsed :
  exists c',
    parseCsv infiniteLiquidityText []
    = (c', Returned [<[js "Symbol" := VString "AAA"]>
                       (<[js "Liquidity" := VNumber (S754_infinity false)]> (∅ : record))]).
Proof.
  destruct (parseCsv_returns infiniteLiquidityText []) as [evs Hevs].
  assert (parse infiniteLiquidityText
          = [<[js "Symbol" := VString "AAA"]>
               (<[js "Liquidity" := VNumber (S754_infinity false)]> (∅ : record))])
    as Hparse by (vm_compute; reflexivity).
  rewrite Hparse in Hevs. eexists. exact Hevs.
Qed.

(** ** The caller: fetchStockData and the screens *)

Lemma parse_symbol (csvText : jstring) (r : record) :
  r ∈ parse csvText ->
  exists s, r !! js "Symbol" = Some (VString s) /\ s <> [].
Proof.
  intros (i & hl & l & _ & _ & (_ & _ & s & Hs & Hne) & ->)%parse_emitted.
  exists s. split; [|done]. unfold recordOf. rewrite buildRow_lookup, Hs.
  rewrite (bool_decide_eq_false_2 (js "Symbol" = js "__proto__")) by done.
  change (coerce (js "Symbol") <$> Some s) with (Some (VString (replaceEdgeQuotes s))).
  by rewrite (replaceEdgeQuotes_id s (columnText_quoteFree _ _ _ _ Hs)).
Qed.

(** What the [try] block yields for a response that is [ok]. *)
Lemma tryFetch_ok (e : engine) (status : nat) (csvText : jstring) (c : console) :
  exists c',
    tryFetch e (Responded true status csvText) c
    = (c',
       if includes csvText "<html" || includes csvText "<!DOCTYPE" then inl htmlMessage
       else if bool_decide (length (trim csvText) = 0) then inl emptyMessage
       else if bool_decide (length (parse csvText) = 0) then inl noDataMessage
       else inr (sortByLiquidity e (parse csvText))).
Proof.
  unfold tryFetch. simpl negb. cbv iota.
  destruct (includes csvText "<html" || includes csvText "<!DOCTYPE"); [eauto|].
  destruct (bool_decide (length (trim csvText) = 0)); [eauto|].
  destruct (parseCsv_returns csvText c) as [evs ->].
  destruct (bool_decide (length (parse csvText) = 0)); eauto.
Qed.

Lemma length_zero_iff {X} (l : list X) : bool_decide (length l = 0) = true <-> l = [].
Proof. rewrite bool_decide_eq_true. by destruct l. Qed.

Lemma render_failed (shown : list record) (message : jstring) :
  render {| stocks := shown; loading := false;
            error := Some (js "Failed to load stock data: " ++ message) |}
  = ErrorScreen (js "Failed to load stock data: " ++ message).
Proof. reflexivity. Qed.

Lemma fetch_failed (e : engine) (r : fetchOutcome) (c c' : console) (message : jstring) :
  tryFetch e r c = (c', inl message) ->
  (fetchStockData e r initialState c).2
  = {| stocks := []; loading := false;
       error := Some (js "Failed to load stock data: " ++ message) |}.
Proof. unfold fetchStockData. by intros ->. Qed.

Lemma fetch_succeeded (e : engine) (r : fetchOutcome) (c c' : console)
    (sortedStocks : list record) :
  tryFetch e r c = (c', inr sortedStocks) ->
  (fetchStockData e r initialState c).2
  = {| stocks := sortedStocks; loading := false; error := None |}.
Proof. unfold fetchStockData. by intros ->. Qed.

(** The outcome of the [try] block: an error message, or a sorted array
    that is not empty. *)
Lemma tryFetch_cases (e : engine) (r : fetchOutcome) (c : console) :
  (forall l, sortByLiquidity e l ≡ₚ l) ->
  (exists c' message, tryFetch e r c = (c', inl message)) \/
  (exists c' status csvText,
     r = Responded true status csvText /\
     includes csvText "<html" = false /\ includes csvText "<!DOCTYPE" = false /\
     parse csvText <> [] /\
     tryFetch e r c = (c', inr (sortByLiquidity e (parse csvText)))).
Proof.
  intros Hsort. destruct r as [message|ok status csvText].
  - left. by eexists _, _.
  - destruct ok; [|left; by eexists _, _].
    destruct (tryFetch_ok e status csvText c) as [c' Hc'].
    destruct (includes csvText "<html") eqn:H1; [left; eexists _, _; exact Hc'|].
    destruct (includes csvText "<!DOCTYPE") eqn:H2; [left; eexists _, _; exact Hc'|].
    destruct (bool_decide (length (trim csvText) = 0));
      [left; eexists _, _; exact Hc'|].
    destruct (bool_decide (length (parse csvText) = 0)) eqn:Hp;
      [left; eexists _, _; exact Hc'|].
    right. exists c', status, csvText.
    split; [reflexivity|]. split; [exact H1|]. split; [exact H2|].
    split; [|exact Hc'].
    intros Hnil. apply length_zero_iff in Hnil. congruence.
Qed.

(** X13.  When [fetchStockData] has run, [loading] is off and the screen is
    the error screen or the dashboard with at least one stock: the loading
    screen is left, and the screen "No Stock Data Found" of lines 202 to 220
    is never shown, an empty result being turned into an error. *)
Theorem fetch_ends_on_error_or_dashboard (e : engine) (r : fetchOutcome) (c : console) :
  (forall l, sortByLiquidity e l ≡ₚ l) ->
  loading (fetchStockData e r initialState c).2 = false /\
  ((exists message,
      stocks (fetchStockData e r initialState c).2 = [] /\
      render (fetchStockData e r initialState c).2
      = ErrorScreen (js "Failed to load stock data: " ++ message))
   \/
   (exists shown,
      shown <> [] /\
      error (fetchStockData e r initialState c).2 = None /\
      render (fetchStockData e r initialState c).2 = Dashboard shown)).
Proof.
  intros Hsort.
  destruct (tryFetch_cases e r c Hsort)
    as [(c' & message & Hres) | (c' & status & csvText & _ & _ & _ & Hne & Hres)].
  - rewrite (fetch_failed _ _ _ _ _ Hres). split; [reflexivity|].
    left. exists message. split; reflexivity.
  - rewrite (fetch_succeeded _ _ _ _ _ Hres). split; [reflexivity|].
    right. exists (sortByLiquidity e (parse csvText)).
    assert (sortByLiquidity e (parse csvText) <> []) as Hshown.
    { intros Hnil. pose proof (Hsort (parse csvText)) as Hperm.
      rewrite Hnil in Hperm. apply Permutation_nil in Hperm. done. }
    split; [exact Hshown|]. split; [reflexivity|].
    unfold render. simpl.
    destruct (sortByLiquidity e (parse csvText)); [done | reflexivity].
Qed.

Lemma fetch_ends_on_error_or_dashboard_witness :
  (forall l, sortByLiquidity exampleEngine l ≡ₚ l) /\
  loading (fetchStockData exampleEngine (Responded true 200 liquidityText)
             initialState []).2 = false /\
  ((exists message,
      stocks (fetchStockData exampleEngine (Responded true 200 liquidityText)
                initialState []).2 = [] /\
      render (fetchStockData exampleEngine (Responded true 200 liquidityText)
                initialState []).2
      = ErrorScreen (js "Failed to load stock data: " ++ message))
   \/
   (exists shown,
      shown <> [] /\
      error (fetchStockData exampleEngine (Responded true 200 liquidityText)
               initialState []).2 = None /\
      render (fetchStockData exampleEngine (Responded true 200 liquidityText)
                initialState []).2 = Dashboard shown)).
Proof.
  split; [exact exampleEngine_perm|].
  exact (fetch_ends_on_error_or_dashboard exampleEngine
           (Responded true 200 liquidityText) [] exampleEngine_perm).
Defined.

(** X14.  The dashboard is shown exactly when the response is [ok], its text
    holds neither [<html] nor [<!DOCTYPE], and [parseCsv] returns at least
    one record.  It then shows what the sort of line 50 makes of the records
    that [parseCsv] returned: the same records and, when no Liquidity among
    them is infinite, in descending order of Liquidity, the records of equal
    Liquidity in the order of their rows.  The comparator of line 50 is then
    a consistent comparator, for which [Array.prototype.sort] is specified
    to sort, and to be stable. *)
Theorem dashboard_iff (e : engine) (r : fetchOutcome) (c : console)
    (shown : list record) :
  (forall l, sortByLiquidity e l ≡ₚ l) ->
  SortContract e ->
  render (fetchStockData e r initialState c).2 = Dashboard shown <->
  exists status csvText c' data,
    r = Responded true status csvText /\
    includes csvText "<html" = false /\
    includes csvText "<!DOCTYPE" = false /\
    parseCsv csvText c = (c', Returned data) /\
    data <> [] /\
    shown = sortByLiquidity e data /\
    shown ≡ₚ data /\
    (Forall finiteLiquidity data ->
     SortedByLiquidity shown /\ DescendingLiquidity shown /\ KeepsTies data shown).
Proof.
  intros Hsort Hcontract. split.
  - intros Hrender.
    destruct (tryFetch_cases e r c Hsort)
      as [(c' & message & Hres) | (c' & status & csvText & -> & H1 & H2 & Hne & Hres)].
    + rewrite (fetch_failed _ _ _ _ _ Hres) in Hrender. discriminate Hrender.
    + rewrite (fetch_succeeded _ _ _ _ _ Hres) in Hrender.
      unfold render in Hrender. simpl in Hrender.
      destruct (parseCsv_returns csvText c) as [evs Hevs].
      exists status, csvText, (c ++ evs), (parse csvText).
      repeat (split; [done|]).
      assert (shown = sortByLiquidity e (parse csvText)) as ->
        by (destruct (bool_decide _); [discriminate Hrender|]; by injection Hrender).
      split; [done|]. split; [apply Hsort|].
      intros Hfin.
      destruct (Hcontract (parse csvText) (parse_consistent csvText Hfin))
        as [Hsorted Hties].
      split; [done|]. split; [|done].
      by apply (parse_descending csvText).
  - intros (status & csvText & c' & data & -> & H1 & H2 & Hrun & Hne & -> & _).
    rewrite (parseCsv_data _ _ _ _ Hrun) in *.
    destruct (tryFetch_ok e status csvText c) as [c1 Hc1].
    assert (trim csvText <> []) as Hnb.
    { intros Hblank. by apply Hne, parse_blank. }
    rewrite H1, H2 in Hc1. cbn [orb] in Hc1.
    rewrite (bool_decide_eq_false_2 (length (trim csvText) = 0)) in Hc1
      by (by destruct (trim csvText)).
    rewrite (bool_decide_eq_false_2 (length (parse csvText) = 0)) in Hc1
      by (by destruct (parse csvText)).
    rewrite (fetch_succeeded _ _ _ _ _ Hc1). unfold render. simpl.
    destruct (sortByLiquidity e (parse csvText)) eqn:Hs; [|reflexivity].
    destruct Hne. pose proof (Hsort (parse csvText)) as Hperm.
    rewrite Hs in Hperm. by apply Permutation_nil in Hperm.
Qed.

Lemma dashboard_iff_witness :
  (forall l, sortByLiquidity exampleEngine l ≡ₚ l) /\
  SortContract exampleEngine /\
  (render (fetchStockData exampleEngine (Responded true 200 tiedLiquidityText)
             initialState []).2
   = Dashboard tiedLiquidityStocks
   <->
   exists status csvText c' data,
     Responded true 200 tiedLiquidityText = Responded true status csvText /\
     includes csvText "<html" = false /\
     includes csvText "<!DOCTYPE" = false /\
     parseCsv csvText [] = (c', Returned data) /\
     data <> [] /\
     tiedLiquidityStocks = sortByLiquidity exampleEngine data /\
     tiedLiquidityStocks ≡ₚ data /\
     (Forall finiteLiquidity data ->
      SortedByLiquidity tiedLiquidityStocks /\
      DescendingLiquidity tiedLiquidityStocks /\
      KeepsTies data tiedLiquidityStocks)) /\
  render (fetchStockData exampleEngine (Responded true 200 tiedLiquidityText)
            initialState []).2
  = Dashboard tiedLiquidityStocks.
Proof.
  split; [exact exampleEngine_perm|]. split; [exact exampleEngine_contract|]. split.
  - exact (dashboard_iff exampleEngine (Responded true 200 tiedLiquidityText) [] _
             exampleEngine_perm exampleEngine_contract).
  - vm_compute. reflexivity.
Defined.

(** X15.  Every stock on the dashboard has a Symbol that is a string and
    not empty: its card is titled with the Symbol, never with "N/A", and its
    key is the Symbol, never the random identifier. *)
Theorem dashboard_cards_show_symbol (e : engine) (r : fetchOutcome) (c : console)
    (shown : list record) (stock : record) :
  (forall l, sortByLiquidity e l ≡ₚ l) ->
  render (fetchStockData e r initialState c).2 = Dashboard shown ->
  stock ∈ shown ->
  exists s,
    s <> [] /\
    stock !! js "Symbol" = Some (VString s) /\
    cardTitle stock = VString s /\
    forall random, uniqueKey random stock = VString s.
Proof.
  intros Hsort Hrender Hstock.
  destruct (tryFetch_cases e r c Hsort)
    as [(c' & message & Hres) | (c' & status & csvText & -> & _ & _ & Hne & Hres)].
  - rewrite (fetch_failed _ _ _ _ _ Hres) in Hrender. discriminate Hrender.
  - rewrite (fetch_succeeded _ _ _ _ _ Hres) in Hrender.
    unfold render in Hrender. simpl in Hrender.
    destruct (bool_decide _); [discriminate Hrender|]. injection Hrender as <-.
    rewrite (Hsort (parse csvText)) in Hstock.
    apply parse_symbol in Hstock as (s & Hs & Hnes).
    exists s. unfold cardTitle, uniqueKey. rewrite Hs.
    destruct s as [|ch s]; [done|]. done.
Qed.

Lemma dashboard_cards_show_symbol_witness :
  (forall l, sortByLiquidity exampleEngine l ≡ₚ l) /\
  exists s,
    s <> [] /\
    (<[js "Symbol" := VString "CCC"]>
       (<[js "Liquidity" := VNumber (S754_finite false 4925812092436480 (-46))]> ∅
        : record)) !! js "Symbol" = Some (VString s) /\
    cardTitle (<[js "Symbol" := VString "CCC"]>
                 (<[js "Liquidity" := VNumber (S754_finite false 4925812092436480 (-46))]> ∅))
    = VString s /\
    forall random,
      uniqueKey random
        (<[js "Symbol" := VString "CCC"]>
           (<[js "Liquidity" := VNumber (S754_finite false 4925812092436480 (-46))]> ∅))
      = VString s.
Proof.
  split; [exact exampleEngine_perm|].
  apply (dashboard_cards_show_symbol exampleEngine (Responded true 200 liquidityText) []
           liquidityStocks _ exampleEngine_perm).
  - vm_compute. reflexivity.
  - right. left.
Defined.

(** ** What parseCsv writes to the console *)

Lemma iterate_silent {St A : Type} (l : list A) (f : St -> A -> St)
    (body : nat -> St -> M (step St)) :
  (forall j x s c, l !! j = Some x -> body j s c = (c, Returned (Continue (f s x)))) ->
  forall n i s c, i + n = length l ->
    iterate n i body s c = (c, Returned (fold_left f (drop i l) s)).
Proof.
  intros Hbody n. induction n as [|n IH]; intros i s c Hlen.
  - rewrite drop_ge by lia. reflexivity.
  - destruct (lookup_lt_is_Some_2 l i) as [x Hx]; [lia|].
    rewrite (drop_S _ _ _ Hx). simpl.
    unfold bind at 1. rewrite (Hbody i x s c Hx).
    apply IH. lia.
Qed.

Lemma scan_loop_silent (line : jstring) (c : console) :
  forLoop 0 (length line) (scanStep line) ([], [], false) c
  = (c, Returned (fold_left scanChar line ([], [], false))).
Proof.
  unfold forLoop. rewrite Nat.sub_0_r.
  rewrite (iterate_silent line scanChar (scanStep line)); [by rewrite drop_0| |lia].
  intros j char [[values currentValue] inQuotes] c0 Hj.
  unfold scanStep, scanChar. rewrite Hj.
  destruct (Ascii.eqb char dquote); [reflexivity|].
  destruct (Ascii.eqb char comma && negb inQuotes); reflexivity.
Qed.

Lemma column_loop_silent (headers values : list jstring) (c : console) :
  length values = length headers ->
  forLoop 0 (length headers) (columnStep headers values) ∅ c
  = (c, Returned (buildRow headers values)).
Proof.
  intros Hlen. unfold forLoop, buildRow. rewrite Nat.sub_0_r.
  rewrite (iterate_silent (zip headers values)
             (fun row hv => setProperty hv.1 (coerce hv.1 hv.2) row)
             (columnStep headers values)); [by rewrite drop_0| |].
  - intros j [h v] row c0 Hj.
    apply lookup_zip_with_Some in Hj as (h' & v' & Heq & Hh & Hv).
    injection Heq as <- <-.
    unfold columnStep. rewrite Hh, Hv. reflexivity.
  - rewrite length_zip_with, Hlen, Nat.min_id. lia.
Qed.

Lemma rowStep_events (lines headers : list jstring) (i : nat) (l : jstring)
    (data : list record) (c : console) :
  lines !! i = Some l ->
  rowStep lines headers i data c
  = (c ++ rowEvents headers i l, Returned (Continue (pushRow headers data l))).
Proof.
  intros Hi. unfold rowStep, rowEvents, pushRow, rowOf, tokenize. rewrite Hi. simpl.
  unfold bind at 1. simpl.
  destruct (bool_decide (0 < length (trim l))); [|by rewrite app_nil_r].
  unfold bind at 1. rewrite scan_loop_silent.
  destruct (fold_left scanChar (trim l) ([], [], false)) as [[values currentValue] inQuotes].
  destruct (bool_decide (length (values ++ [trim currentValue]) = length headers)) eqn:Hlen.
  - apply bool_decide_eq_true in Hlen.
    unfold bind at 1. rewrite (column_loop_silent _ _ _ Hlen).
    destruct (hasSymbol _); [by rewrite app_nil_r | reflexivity].
  - reflexivity.
Qed.

Lemma row_iterate_events (lines headers : list jstring) :
  forall n i data c, i + n = length lines ->
    iterate n i (rowStep lines headers) data c
    = (c ++ rowsEvents headers i (drop i lines),
       Returned (fold_left (pushRow headers) (drop i lines) data)).
Proof.
  induction n as [|n IH]; intros i data c Hlen.
  - rewrite drop_ge by lia. simpl. by rewrite app_nil_r.
  - destruct (lookup_lt_is_Some_2 lines i) as [l Hl]; [lia|].
    rewrite (drop_S _ _ _ Hl). simpl.
    unfold bind at 1. rewrite (rowStep_events _ _ _ _ _ _ Hl).
    rewrite IH by lia. by rewrite <- app_assoc.
Qed.

(** The whole console of a run with a detected header. *)
Lemma parseCsv_console (csvText : jstring) (i : nat) (hl : jstring) (c : console) :
  DetectedHeader csvText i hl ->
  parseCsv csvText c
  = (c ++ LogHeaders (headerRow hl)
       :: rowsEvents (headerRow hl) (S i) (drop (S i) (split LF csvText))
       ++ LogDataSize (length (parse csvText))
       :: (if bool_decide (length (parse csvText) = 0) then [WarnNoData] else []),
     Returned (parse csvText)).
Proof.
  intros Hd. pose proof Hd as [Hi Hl]%detected_headerIndex.
  pose proof (headerIndex_lt _ _ Hi) as Hlt.
  assert (parse csvText = omap (rowOf (headerRow hl)) (drop (S i) (split LF csvText)))
    as Hparse by (unfold parse; by rewrite Hi, Hl).
  unfold parseCsv, forLoop. unfold bind at 1.
  rewrite Nat.sub_0_r, (header_iterate _ _ _ 0 c) by lia.
  rewrite drop_0. fold (headerIndex (split LF csvText)). rewrite Hi, Hl. simpl.
  unfold bind at 1. simpl. unfold bind at 1.
  replace (Z.to_nat (Z.of_nat i + 1)) with (S i) by lia.
  rewrite row_iterate_events by lia.
  rewrite fold_pushRow, app_nil_l, <- Hparse.
  unfold bind, emit, ret.
  destruct (bool_decide (length (parse csvText) = 0));
    rewrite <- !app_assoc; reflexivity.
Qed.

Lemma elem_of_rowsEvents (headers : list jstring) (ev : event) (ls : list jstring) :
  forall i, ev ∈ rowsEvents headers i ls <->
    exists k l, ls !! k = Some l /\ ev ∈ rowEvents headers (i + k) l.
Proof.
  induction ls as [|l ls IH]; intros i; simpl.
  - split; [intros H; by apply elem_of_nil in H | intros (k & l & [=] & _)].
  - rewrite elem_of_app, IH. split.
    + intros [H | (k & l' & Hk & H)].
      * exists 0, l. by rewrite Nat.add_0_r.
      * exists (S k), l'. by rewrite Nat.add_succ_r.
    + intros ([|k] & l' & Hk & H).
      * left. simpl in Hk. injection Hk as ->. by rewrite Nat.add_0_r in H.
      * right. exists k, l'. by rewrite Nat.add_succ_r in H.
Qed.

Lemma missing_in_rowEvents (headers : list jstring) (j : nat) (l : jstring)
    (n : nat) (line : jstring) :
  WarnMissingSymbol n line ∈ rowEvents headers j l <->
  n = j + 1 /\ line = trim l /\ line <> [] /\
  length (tokenize line) = length headers /\
  hasSymbol (buildRow headers (tokenize line)) = false.
Proof.
  unfold rowEvents. rewrite length_pos_nonempty.
  destruct (bool_decide_reflect (trim l <> [])) as [Hnb|Hb].
  - destruct (bool_decide_reflect (length (tokenize (trim l)) = length headers)) as [Hlen|Hlen].
    + destruct (hasSymbol _) eqn:Hsym.
      * split; [intros H; by apply elem_of_nil in H|].
        intros (_ & -> & _ & _ & H). congruence.
      * rewrite list_elem_of_singleton. split.
        -- intros [= -> ->]. done.
        -- intros (-> & -> & _). reflexivity.
    + rewrite list_elem_of_singleton. split; [discriminate|].
      intros (_ & -> & _ & H & _). done.
  - split; [intros H; by apply elem_of_nil in H|].
    intros (_ & -> & H & _). done.
Qed.

Lemma count_in_rowEvents (headers : list jstring) (j : nat) (l : jstring)
    (n nh nv : nat) (line : jstring) :
  WarnColumnCount n nh nv line ∈ rowEvents headers j l <->
  n = j + 1 /\ line = trim l /\ line <> [] /\
  nh = length headers /\ nv = length (tokenize line) /\ nv <> nh.
Proof.
  unfold rowEvents. rewrite length_pos_nonempty.
  destruct (bool_decide_reflect (trim l <> [])) as [Hnb|Hb].
  - destruct (bool_decide_reflect (length (tokenize (trim l)) = length headers)) as [Hlen|Hlen].
    + destruct (hasSymbol _) eqn:Hsym.
      * split; [intros H; by apply elem_of_nil in H|].
        intros (_ & -> & _ & -> & -> & H). done.
      * rewrite list_elem_of_singleton. split; [discriminate|].
        intros (_ & -> & _ & -> & -> & H). done.
    + rewrite list_elem_of_singleton. split.
      * intros [= -> -> -> ->]. done.
      * intros (-> & -> & _ & -> & -> & _). reflexivity.
  - split; [intros H; by apply elem_of_nil in H|].
    intros (_ & -> & H & _). done.
Qed.

(** The warnings about rows in the console of a run from the empty console
    are those of the lines after the header. *)
Lemma row_warning_in_console (csvText : jstring) (i : nat) (hl : jstring)
    (c' : console) (out : outcome (list record)) (ev : event) :
  DetectedHeader csvText i hl ->
  parseCsv csvText [] = (c', out) ->
  (exists n line, ev = WarnMissingSymbol n line) \/
  (exists n nh nv line, ev = WarnColumnCount n nh nv line) ->
  ev ∈ c' <->
  exists k l, split LF csvText !! (S i + k) = Some l /\
              ev ∈ rowEvents (headerRow hl) (S i + k) l.
Proof.
  intros Hd Hrun Hev. rewrite (parseCsv_console _ _ _ [] Hd) in Hrun.
  injection Hrun as <- _.
  rewrite elem_of_cons, elem_of_app, elem_of_cons, elem_of_rowsEvents.
  setoid_rewrite lookup_drop. split.
  - intros [->|[H|[->|H]]].
    + destruct Hev as [(? & ? & [=]) | (? & ? & ? & ? & [=])].
    + exact H.
    + destruct Hev as [(? & ? & [=]) | (? & ? & ? & ? & [=])].
    + destruct (bool_decide _); [|by apply elem_of_nil in H].
      apply list_elem_of_singleton in H as ->.
      destruct Hev as [(? & ? & [=]) | (? & ? & ? & ? & [=])].
  - intros H. right. left. exact H.
Qed.

(** X16.  The warnings of [parseCsv] name the rows it drops: a warning for
    a missing Symbol, or for a column count, is in the console exactly when
    its row number is the number, counted from 1 over all the lines of the
    text, of a line after the header that is not blank and is dropped for
    that reason; it carries the trimmed line and the two counts. *)
Theorem warnings_name_dropped_lines (csvText : jstring) (i : nat) (hl : jstring)
    (c' : console) (out : outcome (list record)) (n : nat) (line : jstring) :
  DetectedHeader csvText i hl ->
  parseCsv csvText [] = (c', out) ->
  (WarnMissingSymbol n line ∈ c' <->
     exists l,
       i + 1 < n /\ split LF csvText !! (n - 1) = Some l /\
       line = trim l /\ line <> [] /\
       length (tokenize line) = length (headerRow hl) /\
       ~ (exists s, columnText "Symbol" (headerRow hl) (tokenize line) = Some s
                    /\ s <> [])) /\
  (forall nh nv,
     WarnColumnCount n nh nv line ∈ c' <->
     exists l,
       i + 1 < n /\ split LF csvText !! (n - 1) = Some l /\
       line = trim l /\ line <> [] /\
       nh = length (headerRow hl) /\ nv = length (tokenize line) /\ nv <> nh).
Proof.
  intros Hd Hrun. split; [|intros nh nv].
  - rewrite (row_warning_in_console _ _ _ _ _ _ Hd Hrun) by (left; eauto).
    setoid_rewrite missing_in_rowEvents. split.
    + intros (k & l & Hl & -> & -> & Hnb & Hlen & Hsym).
      exists l. replace (S i + k + 1 - 1) with (S i + k) by lia.
      split; [lia|]. split; [exact Hl|]. split; [reflexivity|].
      split; [exact Hnb|]. split; [exact Hlen|].
      rewrite hasSymbol_columnText in Hsym. intros (s & Hs & Hne).
      rewrite Hs in Hsym. by apply bool_decide_eq_false in Hsym.
    + intros (l & Hn & Hl & -> & Hnb & Hlen & Hsym).
      exists (n - 1 - S i), l. replace (S i + (n - 1 - S i)) with (n - 1) by lia.
      split; [exact Hl|]. split; [lia|]. split; [reflexivity|].
      split; [exact Hnb|]. split; [exact Hlen|].
      rewrite hasSymbol_columnText.
      destruct (columnText _ _ _) as [s|]; [|reflexivity].
      apply bool_decide_eq_false. intros Hne. apply Hsym. eauto.
  - rewrite (row_warning_in_console _ _ _ _ _ _ Hd Hrun) by (right; eauto).
    setoid_rewrite count_in_rowEvents. split.
    + intros (k & l & Hl & -> & -> & Hnb & -> & -> & Hne).
      exists l. replace (S i + k + 1 - 1) with (S i + k) by lia.
      split; [lia|]. done.
    + intros (l & Hn & Hl & -> & Hnb & -> & -> & Hne).
      exists (n - 1 - S i), l. replace (S i + (n - 1 - S i)) with (n - 1) by lia.
      split; [exact Hl|]. split; [lia|]. done.
Qed.

Lemma warnings_name_dropped_lines_witness :
  DetectedHeader mixedRowsText 0 "Symbol,Name,Price" /\
  WarnMissingSymbol 3 ",Foo,100" ∈ (parseCsv mixedRowsText []).1 /\
  WarnColumnCount 4 3 2 "BBB,Bar" ∈ (parseCsv mixedRowsText []).1.
Proof.
  assert (DetectedHeader mixedRowsText 0 "Symbol,Name,Price") as Hd.
  { apply detected_headerIndex. split; vm_compute; reflexivity. }
  assert (parseCsv mixedRowsText []
          = ((parseCsv mixedRowsText []).1, (parseCsv mixedRowsText []).2)) as Hrun
    by (by destruct (parseCsv mixedRowsText [])).
  split; [exact Hd|]. split.
  - apply (proj1 (warnings_name_dropped_lines mixedRowsText 0 _ _ _ 3 ",Foo,100" Hd Hrun)).
    exists ",Foo,100". split; [lia|]. split; [vm_compute; reflexivity|].
    split; [vm_compute; reflexivity|]. split; [discriminate|].
    split; [vm_compute; reflexivity|].
    intros (s & Hs & Hne). vm_compute in Hs. injection Hs as <-. done.
  - apply (proj2 (warnings_name_dropped_lines mixedRowsText 0 _ _ _ 4 "BBB,Bar" Hd Hrun)).
    exists "BBB,Bar". split; [lia|]. split; [vm_compute; reflexivity|].
    split; [vm_compute; reflexivity|]. split; [discriminate|].
    split; [vm_compute; reflexivity|]. split; [vm_compute; reflexivity|].
    vm_compute. discriminate.
Defined.

(** ** More on the header row and on numbers *)

Lemma length_headerRow (hl : jstring) :
  length (headerRow hl) = S (length (List.filter (Ascii.eqb comma) (trim hl))).
Proof. unfold headerRow. by rewrite length_map, length_split. Qed.

Lemma trim_fixed (s : jstring) :
  match s with [] => True | c :: _ => isWhiteSpace c = false end ->
  match rev s with [] => True | c :: _ => isWhiteSpace c = false end ->
  trim s = s.
Proof.
  intros Hhead Hlast. unfold trim, trimEnd.
  rewrite (trimStart_fixed s Hhead), (trimStart_fixed (rev s) Hlast).
  apply List.rev_involutive.
Qed.

Lemma quotedRow_shape (fields : list jstring) :
  fields <> [] -> exists body, quotedRow fields = dquote :: body ++ [dquote].
Proof.
  intros Hne. destruct fields as [|f fs]; [done|]. unfold quotedRow.
  destruct fs as [|g fs] using rev_ind.
  - exists f. simpl. by rewrite app_nil_r.
  - exists (f ++ [dquote] ++ concat (map (fun g => comma :: quoted g) fs) ++ comma :: dquote :: g).
    rewrite map_app, concat_app. simpl. unfold quoted. simpl.
    rewrite app_nil_r, <- !app_assoc. simpl. do 3 f_equal.
    by rewrite <- !app_assoc.
Qed.

Lemma trim_quotedRow (fields : list jstring) : trim (quotedRow fields) = quotedRow fields.
Proof.
  destruct fields as [|f fs]; [reflexivity|].
  destruct (quotedRow_shape (f :: fs)) as [body ->]; [done|].
  apply trim_fixed; [reflexivity|].
  change (dquote :: body ++ [dquote]) with ((dquote :: body) ++ [dquote]).
  rewrite List.rev_app_distr. reflexivity.
Qed.

Lemma commas_quoted (f : jstring) :
  List.filter (Ascii.eqb comma) (quoted f) = List.filter (Ascii.eqb comma) f.
Proof.
  unfold quoted. change (dquote :: f ++ [dquote]) with ([dquote] ++ f ++ [dquote]).
  rewrite !List.filter_app. simpl. by rewrite app_nil_r.
Qed.

Lemma commas_quoted_rest (fs : list jstring) :
  length (List.filter (Ascii.eqb comma) (concat (map (fun g => comma :: quoted g) fs)))
  = length fs + length (List.filter (Ascii.eqb comma) (concat fs)).
Proof.
  induction fs as [|g fs IH]; [reflexivity|].
  change (concat (map (fun g => comma :: quoted g) (g :: fs)))
    with ([comma] ++ quoted g ++ concat (map (fun g => comma :: quoted g) fs)).
  change (concat (g :: fs)) with (g ++ concat fs).
  rewrite !List.filter_app, !length_app, commas_quoted, IH. simpl. lia.
Qed.

Lemma commas_quotedRow (fields : list jstring) :
  fields <> [] ->
  length (List.filter (Ascii.eqb comma) (quotedRow fields))
  = length fields - 1 + length (List.filter (Ascii.eqb comma) (concat fields)).
Proof.
  intros Hne. destruct fields as [|f fs]; [done|]. unfold quotedRow.
  change (concat (f :: fs)) with (f ++ concat fs).
  rewrite !List.filter_app, !length_app, commas_quoted, commas_quoted_rest.
  simpl. lia.
Qed.

(** X17.  The header line is cut at every comma, quoted or not (line 79),
    while the rows are scanned with their quotes: when a quoted header name
    holds a comma, the header row has more entries than names, and no row of
    as many quoted fields as there are names is kept. *)
Theorem comma_in_header_name_drops_rows (names fields : list jstring) :
  names <> [] ->
  length fields = length names ->
  Forall (fun f => dquote ∉ f) fields ->
  (exists name, name ∈ names /\ comma ∈ name) ->
  length (names) < length (headerRow (quotedRow names)) /\
  ~ Qualifies (headerRow (quotedRow names)) (quotedRow fields).
Proof.
  intros Hne Hlen Hq (name & Hname & Hcomma).
  assert (fields <> []) as Hfne by (intros ->; by destruct names).
  assert (0 < length (List.filter (Ascii.eqb comma) (concat names))) as Hpos.
  { assert (comma ∈ List.filter (Ascii.eqb comma) (concat names)) as Hin.
    { apply list_elem_of_In, filter_In. split; [|apply Ascii.eqb_refl].
      apply in_concat. exists name. by rewrite <- !list_elem_of_In. }
    destruct (List.filter _ _); [by apply elem_of_nil in Hin | simpl; lia]. }
  assert (length names < length (headerRow (quotedRow names))) as Hmore.
  { rewrite length_headerRow, trim_quotedRow, (commas_quotedRow _ Hne). lia. }
  split; [exact Hmore|].
  intros (_ & Hcount & _).
  rewrite trim_quotedRow, (quoted_rows_tokens _ Hfne Hq), length_map in Hcount. lia.
Qed.

Lemma comma_in_header_name_drops_rows_witness :
  [js "Symbol"; js "Name, full"] <> [] /\
  length [js "AAA"; js "Foo"] = length [js "Symbol"; js "Name, full"] /\
  Forall (fun f => dquote ∉ f) [js "AAA"; js "Foo"] /\
  (exists name, name ∈ [js "Symbol"; js "Name, full"] /\ comma ∈ name) /\
  length [js "Symbol"; js "Name, full"]
  < length (headerRow (quotedRow [js "Symbol"; js "Name, full"])) /\
  ~ Qualifies (headerRow (quotedRow [js "Symbol"; js "Name, full"]))
      (quotedRow [js "AAA"; js "Foo"]).
Proof.
  assert (Forall (fun f => dquote ∉ f) [js "AAA"; js "Foo"]) as Hq.
  { repeat constructor; intros H; vm_compute in H;
      repeat (apply elem_of_cons in H as [H|H]; [discriminate H|]);
      by apply elem_of_nil in H. }
  assert (exists name, name ∈ [js "Symbol"; js "Name, full"] /\ comma ∈ name) as Hc.
  { exists (js "Name, full"). split; [right; left|]. vm_compute. do 4 right. left. }
  split; [discriminate|]. split; [reflexivity|]. split; [exact Hq|]. split; [exact Hc|].
  apply comma_in_header_name_drops_rows; [discriminate | reflexivity | exact Hq | exact Hc].
Defined.

Lemma spanDigits_none (s : jstring) :
  Forall (fun c => isDigit c = false) s -> spanDigits s = ([], s).
Proof. destruct 1 as [|c s Hc _]; simpl; [reflexivity | by rewrite Hc]. Qed.

Lemma takeSign_suffix (s : jstring) : exists pre, s = pre ++ (takeSign s).2.
Proof.
  destruct s as [|c s]; simpl; [by exists []|].
  destruct (Ascii.eqb c "-"); [by exists [c]|].
  destruct (Ascii.eqb c "+"); [by exists [c] | by exists []].
Qed.

(** Without a digit, [parseFloat] finds no number: it gives [NaN], or an
    infinity when the text reads [Infinity]. *)
Lemma parseFloat_no_digit (s : jstring) :
  Forall (fun c => isDigit c = false) s ->
  (parseFloat s = NaN \/ exists neg, parseFloat s = S754_infinity neg) /\
  ("I"%char ∉ s -> parseFloat s = NaN).
Proof.
  intros Hs. unfold parseFloat.
  destruct (trimStart_suffix s) as [pre1 Hpre1].
  destruct (takeSign_suffix (trimStart s)) as [pre2 Hpre2].
  destruct (takeSign (trimStart s)) as [neg s1]. simpl in Hpre2.
  assert (Forall (fun c => isDigit c = false) s1) as Hs1.
  { rewrite Hpre1, Hpre2 in Hs. by apply Forall_app in Hs as [_ [_ ?]%Forall_app]. }
  destruct (startsWith s1 "Infinity") eqn:Hinf.
  - split; [right; eauto|]. intros HI. destruct HI.
    apply startsWith_spec in Hinf as [post ->].
    rewrite Hpre1, Hpre2, !elem_of_app. right. right. left. left.
  - assert ((let '(ip, s2) := spanDigits s1 in
             let '(fp, s3) :=
               match s2 with
               | c :: s2' => if Ascii.eqb c "."%char then spanDigits s2' else ([], s2)
               | [] => ([], s2)
               end in
             match ip ++ fp with
             | [] => NaN
             | ds => ofDecimal neg (digitsValue ds) (exponentPart s3 - Z.of_nat (length fp))
             end) = NaN) as ->; [|by split; [left|]].
    rewrite (spanDigits_none s1 Hs1).
    destruct Hs1 as [|c s2' Hc Hs2']; [reflexivity|].
    destruct (Ascii.eqb c "."); [|reflexivity].
    by rewrite (spanDigits_none s2' Hs2').
Qed.

(** X18.  A text without a digit in a numeric column is stored as the
    number 0, unless it reads Infinity, which is stored as an infinity; with
    no digit and no capital I it is always 0.  An empty cell is such a
    text. *)
Theorem text_without_digit_is_zero (h text : jstring) :
  isNumericHeader h = true ->
  dquote ∉ text ->
  Forall (fun c => isDigit c = false) text ->
  (coerce h text = VNumber zero \/ exists neg, coerce h text = VNumber (S754_infinity neg)) /\
  ("I"%char ∉ text -> coerce h text = VNumber zero).
Proof.
  intros Hh Hq Hnd.
  assert (forall s, Forall (fun c => isDigit c = false) s ->
            (VNumber (orZero (parseFloat s)) = VNumber zero \/
             exists neg, VNumber (orZero (parseFloat s)) = VNumber (S754_infinity neg)) /\
            ("I"%char ∉ s -> VNumber (orZero (parseFloat s)) = VNumber zero)) as Hnum.
  { intros s Hs. destruct (parseFloat_no_digit s Hs) as [[Hnan | [neg Hinf]] HI].
    - rewrite Hnan. split; [by left | done].
    - split; [right; exists neg; by rewrite Hinf|]. intros H. by rewrite (HI H). }
  unfold isNumericHeader in Hh. apply orb_true_iff in Hh as [Hh|Hh].
  - rewrite (coerce_priceOrVolume _ _ Hh), (replaceEdgeQuotes_id _ Hq).
    assert (Forall (fun c => isDigit c = false) (removeCommas text)) as Hrc.
    { apply Forall_forall. intros x Hx. rewrite Forall_forall in Hnd. apply Hnd.
      apply list_elem_of_In in Hx. apply filter_In in Hx as [Hx _].
      by apply list_elem_of_In. }
    destruct (Hnum _ Hrc) as [Hcases HI]. split; [exact Hcases|].
    intros H. apply HI. intros Hx. apply H.
    apply list_elem_of_In in Hx. apply filter_In in Hx as [Hx _].
    by apply list_elem_of_In.
  - apply bool_decide_eq_true in Hh as ->.
    rewrite coerce_percent, (replaceEdgeQuotes_id _ Hq). by apply Hnum.
Qed.

Lemma text_without_digit_is_zero_witness :
  isNumericHeader "Volume" = true /\ (dquote ∉ js "n/a") /\
  Forall (fun c => isDigit c = false) (js "n/a") /\
  (coerce "Volume" "n/a" = VNumber zero \/
   exists neg, coerce "Volume" "n/a" = VNumber (S754_infinity neg)) /\
  ("I"%char ∉ js "n/a" -> coerce "Volume" "n/a" = VNumber zero).
Proof.
  assert (dquote ∉ js "n/a") as Hq.
  { intros H. vm_compute in H.
    repeat (apply elem_of_cons in H as [H|H]; [discriminate H|]).
    by apply elem_of_nil in H. }
  assert (Forall (fun c => isDigit c = false) (js "n/a")) as Hnd
    by (repeat constructor).
  split; [reflexivity|]. split; [exact Hq|]. split; [exact Hnd|].
  exact (text_without_digit_is_zero "Volume" "n/a" eq_refl Hq Hnd).
Defined.

Lemma replaceSpaces_no_space (s : jstring) : space ∉ replaceSpaces s.
Proof.
  unfold replaceSpaces. intros Hin.
  apply list_elem_of_In in Hin. apply in_map_iff in Hin as (c & Hc & _).
  destruct (Ascii.eqb c space) eqn:E; [discriminate Hc|].
  rewrite Hc, Ascii.eqb_refl in E. discriminate E.
Qed.

(** X19.  No key of an emitted record holds a space: the header names have
    their spaces replaced by underscores, so every field can be read as
    [stock.Stock_name] is. *)
Theorem keys_have_no_space (csvText : jstring) (c c' : console)
    (data : list record) (r : record) (k : jstring) :
  parseCsv csvText c = (c', Returned data) ->
  r ∈ data ->
  is_Some (r !! k) ->
  space ∉ k.
Proof.
  intros Hrun Hr Hk. rewrite (parseCsv_data _ _ _ _ Hrun) in Hr.
  apply parse_emitted in Hr as (i & hl & l & _ & _ & (_ & Hlen & _) & ->).
  apply elem_of_dom in Hk. unfold recordOf in Hk.
  rewrite (buildRow_dom _ _ Hlen) in Hk.
  apply elem_of_difference in Hk as [Hk _].
  apply elem_of_list_to_set in Hk. unfold headerRow in Hk.
  apply list_elem_of_In in Hk. apply in_map_iff in Hk as (token & <- & _).
  apply replaceSpaces_no_space.
Qed.

Lemma keys_have_no_space_witness :
  space ∉ js "Stock_name".
Proof.
  apply (keys_have_no_space (unlines [js "Symbol,Stock name"; js "AAA,Foo"]) []
           (parseCsv (unlines [js "Symbol,Stock name"; js "AAA,Foo"]) []).1
           (parse (unlines [js "Symbol,Stock name"; js "AAA,Foo"]))
           (<[js "Symbol" := VString "AAA"]> (<[js "Stock_name" := VString "Foo"]> ∅))).
  - destruct (parseCsv_returns (unlines [js "Symbol,Stock name"; js "AAA,Foo"]) [])
      as [evs ->]. reflexivity.
  - vm_compute. left.
  - exists (VString "Foo"). vm_compute. reflexivity.
Defined.

(** ** The records, line by line *)

Lemma parse_parseFrom (csvText : jstring) : parse csvText = parseFrom (split LF csvText).
Proof.
  unfold parse, headerIndex.
  assert (forall ls i,
            match headerIndexFrom i ls with
            | Some k =>
                exists j, k = i + j /\
                  parseFrom ls = match ls !! j with
                                 | Some l => omap (rowOf (headerRow l)) (drop (S j) ls)
                                 | None => []
                                 end
            | None => parseFrom ls = []
            end) as H.
  { induction ls as [|l ls IH]; intros i; simpl; [reflexivity|].
    destruct (isHeaderLine l).
    - exists 0. split; [lia|]. simpl. by rewrite drop_0.
    - specialize (IH (S i)). destruct (headerIndexFrom (S i) ls) as [k|]; [|exact IH].
      destruct IH as (j & -> & IH). exists (S j). split; [lia | exact IH]. }
  specialize (H (split LF csvText) 0).
  destruct (headerIndexFrom 0 (split LF csvText)) as [k|]; [|by rewrite H].
  destruct H as (j & -> & ->). reflexivity.
Qed.

Lemma rowOf_blank (headers : list jstring) (w : jstring) : trim w = [] -> rowOf headers w = None.
Proof. unfold rowOf. by intros ->. Qed.

Lemma parseFrom_insert_blank (ls1 ls2 : list jstring) (w : jstring) :
  trim w = [] -> parseFrom (ls1 ++ w :: ls2) = parseFrom (ls1 ++ ls2).
Proof.
  intros Hw. induction ls1 as [|l ls1 IH]; simpl.
  - by rewrite (isHeaderLine_blank _ Hw).
  - destruct (isHeaderLine l); [|exact IH].
    rewrite !omap_app, omap_cons. by rewrite (rowOf_blank _ _ Hw).
Qed.

Lemma parseFrom_app (ls2 : list jstring) (hl : jstring) (ls1 : list jstring) :
  forall k i,
    headerIndexFrom k ls1 = Some i -> ls1 !! (i - k) = Some hl ->
    parseFrom (ls1 ++ ls2) = parseFrom ls1 ++ omap (rowOf (headerRow hl)) ls2.
Proof.
  induction ls1 as [|l ls1 IH]; intros k i; simpl; [discriminate|].
  destruct (isHeaderLine l).
  - intros [= <-]. rewrite Nat.sub_diag. intros [= ->]. apply omap_app.
  - intros Hi Hl. pose proof (headerIndexFrom_bounds _ _ _ Hi) as Hb.
    replace (i - k) with (S (i - S k)) in Hl by lia. simpl in Hl.
    by apply (IH (S k) i).
Qed.

(** X20.  Rows added at the end of the text add their records at the end
    of the result: when the text [a] has a header line, the records of [a]
    followed by more lines are the records of [a], unchanged and in the same
    order, followed by those of the new lines under the same header row. *)
Theorem appended_rows_append_records (a b hl : jstring) (c c' : console)
    (data : list record) :
  headerLine a = Some hl ->
  parseCsv a c = (c', Returned data) ->
  (parseCsv (a ++ LF :: b) c).2
  = Returned (data ++ map (recordOf (headerRow hl))
                        (filter (Qualifies (headerRow hl)) (split LF b))).
Proof.
  intros Hl Hrun. rewrite (parseCsv_data _ _ _ _ Hrun).
  destruct (parseCsv_returns (a ++ LF :: b) c) as [evs ->]. simpl. f_equal.
  rewrite !parse_parseFrom, split_app, <- omap_rowOf.
  unfold headerLine in Hl.
  destruct (headerIndex (split LF a)) as [i|] eqn:Hi; [|discriminate].
  apply (parseFrom_app _ _ _ 0 i Hi). by rewrite Nat.sub_0_r.
Qed.

Lemma appended_rows_append_records_witness :
  headerLine mixedRowsText = Some (js "Symbol,Name,Price") /\
  (parseCsv (mixedRowsText ++ LF :: js "DDD,Qux,9") []).2
  = Returned (parse mixedRowsText
              ++ map (recordOf (headerRow "Symbol,Name,Price"))
                   (filter (Qualifies (headerRow "Symbol,Name,Price"))
                      (split LF "DDD,Qux,9"))).
Proof.
  assert (headerLine mixedRowsText = Some (js "Symbol,Name,Price")) as Hl
    by (vm_compute; reflexivity).
  split; [exact Hl|].
  apply (appended_rows_append_records mixedRowsText "DDD,Qux,9" _ []
           (parseCsv mixedRowsText []).1 (parse mixedRowsText) Hl).
  destruct (parseCsv_returns mixedRowsText []) as [evs ->]. reflexivity.
Defined.

(** X21.  Blank lines are ignored wherever they stand, before the header
    or among the rows: a text and the same text with a blank line put in
    after any of its line feeds give the same records. *)
Theorem blank_line_ignored (a b w : jstring) (c c' : console) :
  LF ∉ w -> trim w = [] ->
  (parseCsv (a ++ LF :: w ++ LF :: b) c).2 = (parseCsv (a ++ LF :: b) c').2.
Proof.
  intros Hlf Hw.
  destruct (parseCsv_returns (a ++ LF :: w ++ LF :: b) c) as [evs1 ->].
  destruct (parseCsv_returns (a ++ LF :: b) c') as [evs2 ->]. simpl. f_equal.
  rewrite !parse_parseFrom, !split_app, (split_no_sep _ _ Hlf).
  by apply parseFrom_insert_blank.
Qed.

Lemma blank_line_ignored_witness :
  (LF ∉ js "  ") /\ trim "  " = [] /\
  (parseCsv (js "Symbol,Name" ++ LF :: js "  " ++ LF :: js "AAA,Foo") []).2
  = (parseCsv (js "Symbol,Name" ++ LF :: js "AAA,Foo") []).2.
Proof.
  assert (LF ∉ js "  ") as Hlf.
  { intros H. vm_compute in H.
    repeat (apply elem_of_cons in H as [H|H]; [discriminate H|]).
    by apply elem_of_nil in H. }
  split; [exact Hlf|]. split; [reflexivity|].
  exact (blank_line_ignored "Symbol,Name" "AAA,Foo" "  " [] [] Hlf eq_refl).
Defined.

(** ** The order of the columns *)

Lemma columnText_zip (k v : jstring) (headers values : list jstring) :
  length values = length headers -> NoDup headers ->
  columnText k headers values = Some v <-> (k, v) ∈ zip headers values.
Proof.
  intros Hlen Hnd. split.
  - intros (j & Hh & Hv)%columnText_lookup.
    apply list_elem_of_lookup. exists j. apply lookup_zip_with_Some. eauto.
  - intros Hin. apply list_elem_of_lookup in Hin as [j Hj].
    apply lookup_zip_with_Some in Hj as (? & ? & [= <- <-] & Hh & Hv).
    destruct (proj2 (columnText_is_Some k headers values Hlen)) as [v' Hv'].
    { apply list_elem_of_lookup. eauto. }
    destruct (columnText_lookup _ _ _ _ Hv') as (j' & Hh' & Hvj').
    assert (j = j') as <- by (by eapply NoDup_lookup).
    congruence.
Qed.

(** X22.  The order of the columns does not matter: when the header names
    are all different, the same columns in another order give the same
    record. *)
Theorem column_order_irrelevant (headers values headers' values' : list jstring) :
  length values = length headers ->
  length values' = length headers' ->
  NoDup headers ->
  zip headers values ≡ₚ zip headers' values' ->
  buildRow headers values = buildRow headers' values'.
Proof.
  intros Hlen Hlen' Hnd Hperm.
  assert (NoDup headers') as Hnd'.
  { rewrite <- (fst_zip headers' values') by lia.
    rewrite <- Hperm, fst_zip by lia. exact Hnd. }
  apply map_eq. intros k. rewrite !buildRow_lookup.
  destruct (bool_decide (k = js "__proto__")); [reflexivity|]. f_equal.
  destruct (columnText k headers values) as [v|] eqn:Hv.
  - apply columnText_zip in Hv; [|done..]. rewrite Hperm in Hv.
    apply columnText_zip in Hv; [|done..]. by rewrite Hv.
  - destruct (columnText k headers' values') as [v'|] eqn:Hv'; [|reflexivity].
    apply columnText_zip in Hv'; [|done..]. rewrite <- Hperm in Hv'.
    apply columnText_zip in Hv'; [|done..]. congruence.
Qed.

Lemma column_order_irrelevant_witness :
  buildRow [js "Symbol"; js "Name"] [js "AAA"; js "Foo"]
  = buildRow [js "Name"; js "Symbol"] [js "Foo"; js "AAA"].
Proof.
  apply column_order_irrelevant.
  - reflexivity.
  - reflexivity.
  - repeat constructor; rewrite ?elem_of_cons, ?elem_of_nil;
      intros H; repeat destruct H as [H|H]; try discriminate H; done.
  - simpl. apply Permutation_swap.
Defined.
